(** * kikuchipy.utils.expt_utils: rescaling, background correction and
      dead-pixel removal of EBSD patterns

    A shallow embedding of [src/kikuchipy/utils/expt_utils.py].

    - NumPy integer arrays are lists of rows of [Z] tagged with their dtype;
      every wrap-around of fixed-width arithmetic is written out ([wrap]).
    - float64 is the IEEE-754 binary64 format, computed by the Standard
      Library's executable specification [SpecFloat] at precision 53 and
      maximal exponent 1024.
    - Python exceptions are values of [exn]; fallible code returns [result].
    - [remove_dead] copies and then writes into the copy, so it is embedded
      over an explicit store of arrays addressed by references.
    - The C conversion of a float64 that does not fit the target integer type
      is undefined behaviour; it is the section variable [cast_undefined], so
      every theorem holds whatever a platform does there.
    - Type promotion follows NumPy 1.x (value-based casting of Python
      scalars), the NumPy the module was written for. *)

From Stdlib Require Import ZArith Lia Bool String.
From Stdlib Require Import Floats.SpecFloat.
From stdpp Require Import base option list.

Local Open Scope Z_scope.

(** ** Python exceptions and fallible results *)

Inductive exn : Type :=
| ValueError (msg : string)
| TypeError
| IndexError
| OverflowError
| NotImplementedError (msg : string)
| Unmodelled (what : string).

Inductive result (A : Type) : Type :=
| Ok (a : A)
| Raise (e : exn).
Arguments Ok {A} a.
Arguments Raise {A} e.

(** Sequencing: an exception ends the computation.  [x ← r; k] is the
    notation for [mbind]. *)
#[export] Instance result_bind : MBind result := fun A B k r =>
  match r with
  | Ok a => k a
  | Raise e => Raise e
  end.

Definition is_ok {A} (r : result A) : bool :=
  match r with Ok _ => true | Raise _ => false end.

(** ** dtypes *)

Inductive width : Type := W8 | W16 | W32 | W64.

(** [np.int8 .. np.int64] ([signed = true]) and [np.uint8 .. np.uint64]. *)
Record idtype : Type := IDtype { signed : bool; iwidth : width }.

Inductive dtype : Type :=
| DBool
| DInt (t : idtype)
| DFloat16
| DFloat32
| DFloat64.

Abbreviation int8 := (IDtype true W8).
Abbreviation int16 := (IDtype true W16).
Abbreviation int32 := (IDtype true W32).
Abbreviation int64 := (IDtype true W64).
Abbreviation uint8 := (IDtype false W8).
Abbreviation uint16 := (IDtype false W16).
Abbreviation uint32 := (IDtype false W32).
Abbreviation uint64 := (IDtype false W64).

Definition bits (w : width) : Z :=
  match w with W8 => 8 | W16 => 16 | W32 => 32 | W64 => 64 end.

(** [np.iinfo(t).min] and [np.iinfo(t).max]. *)
Definition iinfo_min (t : idtype) : Z :=
  if signed t then - 2 ^ (bits (iwidth t) - 1) else 0.

Definition iinfo_max (t : idtype) : Z :=
  if signed t then 2 ^ (bits (iwidth t) - 1) - 1 else 2 ^ bits (iwidth t) - 1.

Definition in_range (t : idtype) (z : Z) : bool :=
  (iinfo_min t <=? z) && (z <=? iinfo_max t).

(** Two's-complement wrap-around of an exact integer into dtype [t]. *)
Definition wrap (t : idtype) (z : Z) : Z :=
  if signed t
  then (z + 2 ^ (bits (iwidth t) - 1)) mod 2 ^ bits (iwidth t)
       - 2 ^ (bits (iwidth t) - 1)
  else z mod 2 ^ bits (iwidth t).

(** [np.issubdtype(dtype, np.unsignedinteger)]. *)
Definition is_unsignedinteger (dt : dtype) : bool :=
  match dt with
  | DInt t => negb (signed t)
  | _ => false
  end.

(** ** float64 *)

Definition float : Type := spec_float.

Definition prec : Z := 53.
Definition emax : Z := 1024.

Definition fmul : float -> float -> float := SFmul prec emax.
Definition fdiv : float -> float -> float := SFdiv prec emax.
Definition fadd : float -> float -> float := SFadd prec emax.
Definition fsub : float -> float -> float := SFsub prec emax.

(** Conversion of an integer to the nearest float64 (ties to even). *)
Definition Z2F (z : Z) : float := binary_normalize prec emax z 0 false.

Definition fnan : float := S754_nan.
Definition finf : float := S754_infinity false.

(** The integer part of a finite float (rounding toward zero). *)
Definition trunc (x : float) : option Z :=
  match x with
  | S754_zero _ => Some 0
  | S754_finite s m e =>
      let mag := if 0 <=? e then Z.pos m * 2 ^ e else Z.pos m / 2 ^ (- e) in
      Some (if s then - mag else mag)
  | S754_infinity _ | S754_nan => None
  end.

(** Python's [int(x)] on a float. *)
Definition py_int (x : float) : result Z :=
  match x with
  | S754_nan => Raise (ValueError "cannot convert float NaN to integer")
  | S754_infinity _ => Raise OverflowError
  | _ => match trunc x with Some z => Ok z | None => Raise OverflowError end
  end.

(** ** Arrays *)

(** A two-dimensional integer array: dtype and rows.  A well-formed array is
    rectangular and holds values of its dtype. *)
Record iarray : Type := IArray { idt : idtype; irows : list (list Z) }.

(** Arrays as [remove_dead] takes them: integer or float64. *)
Inductive ndarray : Type :=
| IntArray (a : iarray)
| FloatArray (rows : list (list float)).

Definition nrows {A} (rows : list (list A)) : nat := length rows.
Definition ncols {A} (rows : list (list A)) : nat :=
  match rows with
  | [] => 0%nat
  | r :: _ => length r
  end.

Definition rect {A} (rows : list (list A)) : Prop :=
  Forall (fun r => length r = ncols rows) rows.

Definition in_dtype (a : iarray) : Prop :=
  Forall (Forall (fun z => in_range (idt a) z = true)) (irows a).

Definition map2d {A B} (f : A -> B) (rows : list (list A)) : list (list B) :=
  map (map f) rows.

(** [a.min()] and [a.max()]: the reduction over the flattened array, which
    raises on a zero-size array. *)
Definition np_min (rows : list (list Z)) : result Z :=
  match concat rows with
  | [] => Raise (ValueError
      "zero-size array to reduction operation minimum which has no identity")
  | z :: zs => Ok (fold_left Z.min zs z)
  end.

Definition np_max (rows : list (list Z)) : result Z :=
  match concat rows with
  | [] => Raise (ValueError
      "zero-size array to reduction operation maximum which has no identity")
  | z :: zs => Ok (fold_left Z.max zs z)
  end.

(** The smallest and the largest pixel of an array that has one, as
    mathematical integers. *)
Definition pixel_min (a : iarray) : Z :=
  foldr Z.min (hd 0 (concat (irows a))) (concat (irows a)).

Definition pixel_max (a : iarray) : Z :=
  foldr Z.max (hd 0 (concat (irows a))) (concat (irows a)).

(** [a.astype(t)] between integer dtypes wraps. *)
Definition astype (t : idtype) (a : iarray) : iarray :=
  IArray t (map2d (wrap t) (irows a)).

(** *** Type promotion (NumPy 1.x) *)

Definition next_width (w : width) : option width :=
  match w with W8 => Some W16 | W16 => Some W32 | W32 => Some W64 | W64 => None end.

Definition width_max (w1 w2 : width) : width :=
  if bits w1 <=? bits w2 then w2 else w1.

(** [np.promote_types] on integer dtypes; [None] stands for float64. *)
Definition promote_types (t1 t2 : idtype) : option idtype :=
  match signed t1, signed t2 with
  | true, true => Some (IDtype true (width_max (iwidth t1) (iwidth t2)))
  | false, false => Some (IDtype false (width_max (iwidth t1) (iwidth t2)))
  | true, false =>
      if bits (iwidth t2) <? bits (iwidth t1) then Some t1
      else option_map (IDtype true) (next_width (iwidth t2))
  | false, true =>
      if bits (iwidth t1) <? bits (iwidth t2) then Some t2
      else option_map (IDtype true) (next_width (iwidth t1))
  end.

(** The smallest width whose unsigned (resp. signed) type holds [v]. *)
Definition min_width (sg : bool) (v : Z) : option width :=
  if in_range (IDtype sg W8) v then Some W8
  else if in_range (IDtype sg W16) v then Some W16
  else if in_range (IDtype sg W32) v then Some W32
  else if in_range (IDtype sg W64) v then Some W64
  else None.

(** The dtype a Python int [v] takes next to an array of dtype [t]:
    [np.min_scalar_type v], read as the signed type of the same size when
    [v] is a small unsigned value and [t] is signed.  [None]: [v] fits no
    NumPy integer (it becomes a Python object). *)
Definition scalar_type (t : idtype) (v : Z) : option idtype :=
  if v <? 0 then option_map (IDtype true) (min_width true v)
  else
    match min_width false v with
    | Some w =>
        if signed t && in_range (IDtype true w) v then Some (IDtype true w)
        else Some (IDtype false w)
    | None => None
    end.

(** [np.result_type(array of t, v)]: outer [None] is the object dtype, inner
    [None] is float64. *)
Definition result_type (t : idtype) (v : Z) : option (option idtype) :=
  option_map (promote_types t) (scalar_type t v).

(** ** Elementwise arithmetic *)

(** The intensity subtracted by [rescale_pattern_intensity]: the NumPy scalar
    [pattern.min()], of the array's own dtype, or the caller's Python int. *)
Inductive intensity : Type :=
| NpScalar (v : Z)
| PyInt (v : Z).

(** [pattern - imin].  Next to a scalar of its own dtype the array keeps its
    dtype; next to a Python int the result dtype is [result_type], so the
    difference is taken in a wider integer type or in float64. *)
Definition np_subtract_scalar (a : iarray) (imin : intensity) : result ndarray :=
  match imin with
  | NpScalar v =>
      Ok (IntArray (IArray (idt a) (map2d (fun p => wrap (idt a) (p - v)) (irows a))))
  | PyInt v =>
      match result_type (idt a) v with
      | Some (Some t) =>
          Ok (IntArray (IArray t (map2d (fun p => wrap t (p - v)) (irows a))))
      | Some None =>
          Ok (FloatArray (map2d (fun p => fsub (Z2F p) (Z2F v)) (irows a)))
      | None => Raise (Unmodelled "arithmetic on the object dtype")
      end
  end.

(** [pattern * scale] with a Python float: always a float64 array. *)
Definition np_multiply_float (a : ndarray) (scale : float) : list (list float) :=
  match a with
  | IntArray a => map2d (fun p => fmul (Z2F p) scale) (irows a)
  | FloatArray rows => map2d (fun x => fmul x scale) rows
  end.

(** Broadcasting of two lengths of one axis. *)
Definition broadcast_len (n m : nat) : option nat :=
  if (n =? m)%nat then Some n
  else if (n =? 1)%nat then Some m
  else if (m =? 1)%nat then Some n
  else None.

(** Stretch an axis of length 1 to length [n]. *)
Definition stretch {A} (n : nat) (l : list A) : list A :=
  match l with
  | [x] => replicate n x
  | _ => l
  end.

Definition zip2d {A B C} (f : A -> B -> C) (x : list (list A)) (y : list (list B))
  : list (list C) :=
  zip_with (zip_with f) x y.

(** [a - b] of two arrays of the same integer dtype [t], with broadcasting. *)
Definition np_subtract (t : idtype) (x y : list (list Z)) : result (list (list Z)) :=
  match broadcast_len (nrows x) (nrows y), broadcast_len (ncols x) (ncols y) with
  | Some r, Some c =>
      Ok (zip2d (fun p q => wrap t (p - q))
            (stretch r (map (stretch c) x)) (stretch r (map (stretch c) y)))
  | _, _ => Raise (ValueError "operands could not be broadcast together")
  end.

Section Processing.

(** What converting a float64 to integer dtype [t] stores when the value has
    no integer part or its integer part does not fit [t] (undefined in C). *)
Variable cast_undefined : idtype -> float -> Z.

(** The conversion [np.array(x, dtype=t)] applies to each float64:
    truncation toward zero where the target holds the integer part. *)
Definition float_to_int (t : idtype) (x : float) : Z :=
  match trunc x with
  | Some z => if in_range t z then z else wrap t (cast_undefined t x)
  | None => wrap t (cast_undefined t x)
  end.

(** ** [rescale_pattern_intensity] *)

Definition not_unsigned_msg : string := "Data type is not unsigned integer.".

(** [imin] is a Python int and [scale] a Python float, as the docstring has
    them; [None] is the omitted argument.  [dtype_out] defaults to
    [np.uint8] in the source and is passed explicitly here. *)

Definition rescale_pattern_intensity
    (pattern : iarray) (imin : option Z) (scale : option float) (dtype_out : dtype)
  : result iarray :=
  match dtype_out with
  | DInt t_out =>
      if signed t_out then Raise (ValueError not_unsigned_msg)
      else
        (* Local contrast stretching when both are None *)
        '(imin, scale) ←
          match imin, scale with
          | None, None =>
              let omax := iinfo_max t_out in
              imin ← np_min (irows pattern);
              pmax ← np_max (irows pattern);
              Ok (Some (NpScalar imin),
                  Some (fdiv (Z2F omax) (Z2F (wrap (idt pattern) (pmax - imin)))))
          | _, _ => Ok (option_map PyInt imin, scale)
          end;
        (* Set lowest intensity to zero *)
        shifted ← match imin with
                  | Some imin => np_subtract_scalar pattern imin
                  | None => Raise TypeError
                  end;
        (* Scale intensities *)
        match scale with
        | Some scale =>
            Ok (IArray t_out
                  (map2d (float_to_int t_out) (np_multiply_float shifted scale)))
        | None => Raise TypeError
        end
  | _ => Raise (ValueError not_unsigned_msg)
  end.

(** The automatic mode as the specification words it: [omax] is the largest
    value of the output dtype, [imin] the smallest pixel, [scale] the float64
    quotient [omax / (max - imin)], and every output pixel the conversion of
    [(p - imin) * scale], all differences being exact integers. *)
Definition spec_rescale_auto (pattern : iarray) (t_out : idtype) : iarray :=
  let omax := iinfo_max t_out in
  let imin := pixel_min pattern in
  let pmax := pixel_max pattern in
  let scale := fdiv (Z2F omax) (Z2F (pmax - imin)) in
  IArray t_out
    (map2d (fun p => float_to_int t_out (fmul (Z2F (p - imin)) scale))
       (irows pattern)).

(** ** [correct_background] *)

(** Both arrays cast to the signed [dtype], then subtracted elementwise in
    that dtype. *)
Definition subtract_as (dtype : idtype) (pattern bg : iarray) : result iarray :=
  let pattern := astype dtype pattern in
  let bg := astype dtype bg in
  diff ← np_subtract dtype (irows pattern) (irows bg);
  Ok (IArray dtype diff).

(** [scipy.ndimage.gaussian_filter(pattern, sigma, truncate=2.0)], an
    external collaborator. *)
Variable gaussian_filter : iarray -> float -> iarray.

Definition correct_background
    (pattern : iarray) (static dynamic : bool) (bg : iarray) (sigma : float)
    (imin : option Z) (scale : option float) : result iarray :=
  pattern ←
    (if static then
       (* Change data types to avoid negative intensities in subtraction,
          subtract static background *)
       pattern ← subtract_as int8 pattern bg;
       (* Rescale intensities, either keeping relative intensities or not *)
       rescale_pattern_intensity pattern imin scale (DInt uint8)
     else Ok pattern);
  pattern ←
    (if dynamic then
       (* Create gaussian blurred version of pattern *)
       let blurred := gaussian_filter pattern sigma in
       (* Change data types to avoid negative intensities in subtraction,
          subtract blurred background *)
       pattern ← subtract_as int16 pattern blurred;
       (* Rescale intensities, loosing relative intensities *)
       rescale_pattern_intensity pattern None None (DInt uint8)
     else Ok pattern);
  Ok pattern.

End Processing.

(** ** The store of arrays *)

(** A reference to an array object, and the store holding the objects.
    Allocation extends the store at its end, so a fresh reference is the
    store's length. *)
Abbreviation loc := nat.
Abbreviation store := (list ndarray).

(** A computation that reads and writes the store and may raise. *)
Definition M (A : Type) : Type := store -> result A * store.

#[export] Instance M_bind : MBind M := fun A B k m σ =>
  match m σ with
  | (Ok a, σ') => k a σ'
  | (Raise e, σ') => (Raise e, σ')
  end.

#[export] Instance M_ret : MRet M := fun A a σ => (Ok a, σ).

Definition lift {A} (r : result A) : M A := fun σ => (r, σ).

Definition load (l : loc) : M ndarray := fun σ =>
  match σ !! l with
  | Some a => (Ok a, σ)
  | None => (Raise (Unmodelled "dangling reference"), σ)
  end.

Definition alloc (a : ndarray) : M loc := fun σ => (Ok (length σ), σ ++ [a]).

Definition put (l : loc) (a : ndarray) : M unit := fun σ => (Ok tt, <[l := a]> σ).

(** [np.copy(a)]: a new object with the contents of [a]. *)
Definition np_copy (l : loc) : M loc :=
  a ← load l; alloc a.

(** [for x in xs: body(x)]. *)
Fixpoint for_each {A} (xs : list A) (body : A -> M unit) : M unit :=
  match xs with
  | [] => mret tt
  | x :: xs => body x;; for_each xs body
  end.

(** ** Indexing and slicing *)

(** An index into an axis of length [n]: negative indices count from the
    end, anything else out of range raises. *)
Definition norm_index (n : nat) (i : Z) : result nat :=
  if (0 <=? i) && (i <? Z.of_nat n) then Ok (Z.to_nat i)
  else if (- Z.of_nat n <=? i) && (i <? 0) then Ok (Z.to_nat (i + Z.of_nat n))
  else Raise IndexError.

(** A slice bound on an axis of length [n]: negative bounds count from the
    end, and the result is clipped to [0 .. n]. *)
Definition slice_bound (n : nat) (i : Z) : nat :=
  if i <? 0 then Z.to_nat (Z.max 0 (i + Z.of_nat n))
  else Z.to_nat (Z.min i (Z.of_nat n)).

(** [l[start:stop]]. *)
Definition slice {A} (l : list A) (start stop : Z) : list A :=
  let s := slice_bound (length l) start in
  let e := slice_bound (length l) stop in
  take (e - s) (drop s l).

(** [a[r0:r1, c0:c1]]. *)
Definition slice2d {A} (rows : list (list A)) (r0 r1 c0 c1 : Z) : list (list A) :=
  map (fun row => slice row c0 c1) (slice rows r0 r1).

(** [np.delete(l, k)] for an integer [k]. *)
Definition np_delete {A} (l : list A) (k : nat) : result (list A) :=
  if (k <? length l)%nat then Ok (take k l ++ drop (S k) l)
  else Raise IndexError.

(** [np.mean] of a one-dimensional array, accumulated in float64.  The sum
    runs left to right from zero; NumPy adds in blocks, which gives the same
    float whenever every partial sum is exact, as for integer pixels whose
    sum stays below [2 ^ 53]. *)
Definition np_mean (xs : list float) : float :=
  fdiv (fold_left fadd xs (S754_zero false)) (Z2F (Z.of_nat (length xs))).

(** [pattern[i - d:i + d + 1, j - d:j + d + 1].flatten()], as the float64
    values [np.mean] reads. *)
Definition flat_neighbours (a : ndarray) (i j d : Z) : list float :=
  match a with
  | IntArray a =>
      map Z2F (concat (slice2d (irows a) (i - d) (i + d + 1) (j - d) (j + d + 1)))
  | FloatArray rows =>
      concat (slice2d rows (i - d) (i + d + 1) (j - d) (j + d + 1))
  end.

(** A Python number assigned into an array. *)
Inductive pyvalue : Type :=
| PyI (z : Z)
| PyF (x : float).

Definition set2d {A} (rows : list (list A)) (r c : nat) (v : A) : list (list A) :=
  alter (fun row => <[c := v]> row) r rows.

Definition shape (a : ndarray) : nat * nat :=
  match a with
  | IntArray a => (nrows (irows a), ncols (irows a))
  | FloatArray rows => (nrows rows, ncols rows)
  end.

(** Whether the C integer that NumPy 1.x reads a Python int into, on its
    way to dtype [t], holds [z]: a [long] (64 bits), or an [unsigned long]
    for [uint32] and [uint64]. *)
Definition fits_c_integer (t : idtype) (z : Z) : bool :=
  in_range int64 z
  || (negb (signed t) && (32 <=? bits (iwidth t)) && in_range uint64 z).

(** The array [a] after [a[i, j] = v]: the index is resolved first, then the
    value is converted to the array's dtype.  Into an integer array a float
    goes through Python's [int], and a Python int that the C integer holds
    is wrapped to the dtype. *)
Definition assign (a : ndarray) (i j : Z) (v : pyvalue) : result ndarray :=
  r ← norm_index (fst (shape a)) i;
  c ← norm_index (snd (shape a)) j;
  match a with
  | IntArray a =>
      z ← match v with PyI z => Ok z | PyF x => py_int x end;
      if fits_c_integer (idt a) z
      then Ok (IntArray (IArray (idt a) (set2d (irows a) r c (wrap (idt a) z))))
      else Raise OverflowError
  | FloatArray rows =>
      Ok (FloatArray (set2d rows r c match v with PyI z => Z2F z | PyF x => x end))
  end.

(** [a[i, j] = v] on the object referred to by [l]. *)
Definition setitem (l : loc) (i j : Z) (v : pyvalue) : M unit :=
  a ← load l;
  a' ← lift (assign a i j v);
  put l a'.

(** ** [remove_dead] *)

Definition not_implemented_msg : string :=
  "The method specified is not implemented. See documentation for available implementations.".

Definition remove_dead
    (pattern : loc) (deadpixels : list (Z * Z)) (deadvalue : string) (d : Z) : M loc :=
  new_pattern ← np_copy pattern;
  (if String.eqb deadvalue "average" then
     for_each deadpixels (fun '(i, j) =>
       pat ← load pattern;
       neighbours ← lift (np_delete (flat_neighbours pat i j d) 4);  (* Exclude dead pixel *)
       v ← lift (py_int (np_mean neighbours));
       setitem new_pattern i j (PyI v))
   else if String.eqb deadvalue "nan" then
     for_each deadpixels (fun '(i, j) => setitem new_pattern i j (PyF fnan))
   else lift (Raise (NotImplementedError not_implemented_msg)));;
  mret new_pattern.

(** The writes of a loop of [remove_dead] on the value of the copy: the
    outcome and the copy as the loop leaves it. *)
Fixpoint run_writes (step : ndarray -> Z * Z -> result ndarray)
    (cur : ndarray) (deadpixels : list (Z * Z)) : result unit * ndarray :=
  match deadpixels with
  | [] => (Ok tt, cur)
  | ij :: rest =>
      match step cur ij with
      | Ok cur' => run_writes step cur' rest
      | Raise e => (Raise e, cur)
      end
  end.

Definition average_step (pat : ndarray) (d : Z) (cur : ndarray) (ij : Z * Z)
  : result ndarray :=
  neighbours ← np_delete (flat_neighbours pat (fst ij) (snd ij) d) 4;
  v ← py_int (np_mean neighbours);
  assign cur (fst ij) (snd ij) (PyI v).

Definition nan_step (cur : ndarray) (ij : Z * Z) : result ndarray :=
  assign cur (fst ij) (snd ij) (PyF fnan).

(** [remove_dead] on the value [a] of the input: the outcome and the final
    value of the copy. *)
Definition remove_dead_writes (a : ndarray) (deadpixels : list (Z * Z))
    (deadvalue : string) (d : Z) : result unit * ndarray :=
  if String.eqb deadvalue "average" then run_writes (average_step a d) a deadpixels
  else if String.eqb deadvalue "nan" then run_writes nan_step a deadpixels
  else (Raise (NotImplementedError not_implemented_msg), a).

Definition get2d {A} (rows : list (list A)) (r c : nat) : option A :=
  row ← rows !! r; row !! c.

(** ** Two platforms *)

(** A conversion that wraps the integer part modulo the width of the target
    and stores 0 for NaN and the infinities. *)
Definition cast_modular (t : idtype) (x : float) : Z :=
  match trunc x with
  | Some z => wrap t z
  | None => 0
  end.

(** A conversion that saturates at the bounds of the target and stores 0
    for NaN. *)
Definition cast_saturating (t : idtype) (x : float) : Z :=
  match x with
  | S754_nan => 0
  | S754_infinity s => if s then iinfo_min t else iinfo_max t
  | _ => match trunc x with
         | Some z => Z.max (iinfo_min t) (Z.min z (iinfo_max t))
         | None => 0
         end
  end.

(** A blur that leaves the pattern as it is, to run [correct_background]
    where the dynamic path is off. *)
Definition no_blur (pattern : iarray) (sigma : float) : iarray := pattern.

(** ** Auxiliary notions of the statements *)

(** The exceptions the loops can raise. *)
Definition loop_exn (e : exn) : Prop :=
  match e with
  | IndexError | OverflowError | ValueError _ => True
  | _ => False
  end.

(** The coordinates a list of dead pixels addresses in an array of [nr]
    rows and [nc] columns. *)
Definition listed (nr nc : nat) (deadpixels : list (Z * Z)) (r c : nat) : bool :=
  existsb (fun ij =>
    match norm_index nr (fst ij), norm_index nc (snd ij) with
    | Ok r', Ok c' => (r =? r')%nat && (c =? c')%nat
    | _, _ => false
    end) deadpixels.

Definition addressable (nr nc : nat) (ij : Z * Z) : Prop :=
  is_ok (norm_index nr (fst ij)) = true /\ is_ok (norm_index nc (snd ij)) = true.

(** The 5x5 pattern of tens with 200 at (2, 2), and the pattern of tens. *)
Definition tens_with_dead_pixel : list (list Z) :=
  [[10; 10; 10; 10; 10];
   [10; 10; 10; 10; 10];
   [10; 10; 200; 10; 10];
   [10; 10; 10; 10; 10];
   [10; 10; 10; 10; 10]].

Definition tens : list (list Z) :=
  [[10; 10; 10; 10; 10];
   [10; 10; 10; 10; 10];
   [10; 10; 10; 10; 10];
   [10; 10; 10; 10; 10];
   [10; 10; 10; 10; 10]].

(** ** Notions of the further properties *)

(** An exhaustive check of [f] on the integers [0 .. n - 1]. *)
Definition all_below (n : nat) (f : Z -> bool) : bool :=
  forallb f (map Z.of_nat (seq 0 n)).

(** The integer part of [k * (255 / D)] in float64: the output of the
    automatic mode to [uint8] for a pixel [k] above the minimum of a pattern
    with [max - min = D]. *)
Definition stretch8 (D k : Z) : option Z :=
  trunc (fmul (Z2F k) (fdiv (Z2F 255) (Z2F D))).

(** A list of defined values in [prev .. 255] that never decreases. *)
Fixpoint nondecreasing (prev : Z) (l : list (option Z)) : bool :=
  match l with
  | [] => true
  | Some x :: l => (prev <=? x) && (x <=? 255) && nondecreasing x l
  | None :: _ => false
  end.

(** The stretched values of [0 .. D], the scale computed once. *)
Definition stretch8_values (D : Z) : list (option Z) :=
  let s := fdiv (Z2F 255) (Z2F D) in
  map (fun k => trunc (fmul (Z2F (Z.of_nat k)) s)) (seq 0 (Z.to_nat D + 1)).

(** For one [D]: the values of [0 .. D] start at 0, never decrease, stay
    within [0 .. 255] and end at 254 or 255. *)
Definition stretch8_ok (D : Z) : bool :=
  match stretch8_values D with
  | Some 0 :: _ =>
      nondecreasing 0 (stretch8_values D)
      && match last (stretch8_values D) with
         | Some (Some top) => 254 <=? top
         | _ => false
         end
  | _ => false
  end.

(** Multiplying by 1.0 and truncating gives the integer back. *)
Definition unit_scale_ok (p : Z) : bool :=
  match trunc (fmul (Z2F p) (Z2F 1)) with
  | Some z => z =? p
  | None => false
  end.

(** Two arrays of one shape: as many rows, each as long. *)
Definition same_shape {A B} (x : list (list A)) (y : list (list B)) : Prop :=
  Forall2 (fun r s => length r = length s) x y.


(** The pixel of an array at row [r] and column [c], as a Python number. *)
Definition pixel (a : ndarray) (r c : nat) : option pyvalue :=
  match a with
  | IntArray a => PyI <$> get2d (irows a) r c
  | FloatArray rows => PyF <$> get2d rows r c
  end.

Definition array_dtype (a : ndarray) : dtype :=
  match a with
  | IntArray a => DInt (idt a)
  | FloatArray _ => DFloat64
  end.

Definition nd_rect (a : ndarray) : Prop :=
  match a with
  | IntArray a => rect (irows a)
  | FloatArray rows => rect rows
  end.

(** The pixels of an array as the float64 values [np.mean] reads. *)
Definition as_floats (a : ndarray) : list (list float) :=
  match a with
  | IntArray a => map2d Z2F (irows a)
  | FloatArray rows => rows
  end.


(** * Properties *)

Ltac dtype_cases t :=
  destruct t as [[] []];
  cbv [wrap iinfo_min iinfo_max in_range signed iwidth bits];
  repeat match goal with
    | |- context [2 ^ ?n] =>
        let v := eval vm_compute in (2 ^ n) in change (2 ^ n) with v
    end.

(** ** Integer ranges *)

Lemma in_range_bounds t z :
  in_range t z = true <-> iinfo_min t <= z <= iinfo_max t.
Proof. unfold in_range. rewrite andb_true_iff, !Z.leb_le. tauto. Qed.

Lemma wrap_in_range t z : in_range t z = true -> wrap t z = z.
Proof.
  rewrite in_range_bounds. dtype_cases t; intros H.
  all: rewrite Z.mod_small by lia; lia.
Qed.

Lemma wrap_range t z : in_range t (wrap t z) = true.
Proof.
  rewrite in_range_bounds. dtype_cases t.
  all: Z.div_mod_to_equations; lia.
Qed.

(** ** Minimum and maximum of the pixels *)

Lemma fold_left_min_spec zs z :
  fold_left Z.min zs z ∈ z :: zs /\ Forall (fun p => fold_left Z.min zs z <= p) (z :: zs).
Proof.
  revert z. induction zs as [|y zs IH]; intros z; cbn.
  - split; [left | repeat constructor; lia].
  - destruct (IH (Z.min z y)) as [Hin Hle]. split.
    + apply elem_of_cons in Hin as [Hin | Hin]; [| by do 2 right].
      rewrite Hin. destruct (Z.min_spec z y) as [[_ ->] | [_ ->]];
        [left | right; left].
    + apply Forall_cons in Hle as [H1 H2].
      repeat constructor; [lia | lia | done].
Qed.

Lemma fold_left_max_spec zs z :
  fold_left Z.max zs z ∈ z :: zs /\ Forall (fun p => p <= fold_left Z.max zs z) (z :: zs).
Proof.
  revert z. induction zs as [|y zs IH]; intros z; cbn.
  - split; [left | repeat constructor; lia].
  - destruct (IH (Z.max z y)) as [Hin Hle]. split.
    + apply elem_of_cons in Hin as [Hin | Hin]; [| by do 2 right].
      rewrite Hin. destruct (Z.max_spec z y) as [[_ ->] | [_ ->]];
        [right; left | left].
    + apply Forall_cons in Hle as [H1 H2].
      repeat constructor; [lia | lia | done].
Qed.

Lemma foldr_min_spec zs z :
  z ∈ zs -> foldr Z.min z zs ∈ zs /\ Forall (fun p => foldr Z.min z zs <= p) zs.
Proof.
  intros Hz. assert (foldr Z.min z zs ∈ z :: zs /\ Forall (fun p => foldr Z.min z zs <= p) zs) as [H1 H2].
  { clear Hz. induction zs as [|y zs [IH1 IH2]]; cbn.
    - split; [left | constructor].
    - split.
      + destruct (Z.min_spec y (foldr Z.min z zs)) as [[_ ->] | [_ ->]].
        * right; left.
        * apply elem_of_cons in IH1 as [-> | ?]; [left | by do 2 right].
      + constructor; [lia |]. eapply Forall_impl; [exact IH2 |]. cbn; intros; lia. }
  split; [| done]. apply elem_of_cons in H1 as [-> | ?]; done.
Qed.

Lemma foldr_max_spec zs z :
  z ∈ zs -> foldr Z.max z zs ∈ zs /\ Forall (fun p => p <= foldr Z.max z zs) zs.
Proof.
  intros Hz. assert (foldr Z.max z zs ∈ z :: zs /\ Forall (fun p => p <= foldr Z.max z zs) zs) as [H1 H2].
  { clear Hz. induction zs as [|y zs [IH1 IH2]]; cbn.
    - split; [left | constructor].
    - split.
      + destruct (Z.max_spec y (foldr Z.max z zs)) as [[_ ->] | [_ ->]].
        * apply elem_of_cons in IH1 as [-> | ?]; [left | by do 2 right].
        * right; left.
      + constructor; [lia |]. eapply Forall_impl; [exact IH2 |]. cbn; intros; lia. }
  split; [| done]. apply elem_of_cons in H1 as [-> | ?]; done.
Qed.

(** What [a.min()] and [a.max()] return on an array with a pixel. *)
Lemma np_min_spec rows :
  concat rows <> [] ->
  exists m, np_min rows = Ok m /\ m ∈ concat rows /\
            Forall (fun p => m <= p) (concat rows) /\
            m = foldr Z.min (hd 0 (concat rows)) (concat rows).
Proof.
  intros Hne. unfold np_min. destruct (concat rows) as [|z zs]; [done |].
  destruct (fold_left_min_spec zs z) as [Hin Hle].
  eexists; split; [done |]. split; [done |]. split; [done |].
  cbn [hd]. destruct (foldr_min_spec (z :: zs) z ltac:(left)) as [Hin' Hle'].
  rewrite Forall_forall in Hle, Hle'.
  apply Z.le_antisymm; [apply Hle, Hin' | apply Hle', Hin].
Qed.

Lemma np_max_spec rows :
  concat rows <> [] ->
  exists m, np_max rows = Ok m /\ m ∈ concat rows /\
            Forall (fun p => p <= m) (concat rows) /\
            m = foldr Z.max (hd 0 (concat rows)) (concat rows).
Proof.
  intros Hne. unfold np_max. destruct (concat rows) as [|z zs]; [done |].
  destruct (fold_left_max_spec zs z) as [Hin Hle].
  eexists; split; [done |]. split; [done |]. split; [done |].
  cbn [hd]. destruct (foldr_max_spec (z :: zs) z ltac:(left)) as [Hin' Hle'].
  rewrite Forall_forall in Hle, Hle'.
  apply Z.le_antisymm; [apply Hle', Hin | apply Hle, Hin'].
Qed.

Lemma in_dtype_concat a :
  in_dtype a -> Forall (fun z => in_range (idt a) z = true) (concat (irows a)).
Proof.
  unfold in_dtype. induction 1 as [|r rows Hr _ IH]; cbn; [constructor |].
  by apply Forall_app.
Qed.

Lemma map2d_ext_in {A B} (f g : A -> B) rows :
  (forall p, p ∈ concat rows -> f p = g p) -> map2d f rows = map2d g rows.
Proof.
  unfold map2d. induction rows as [|r rows IH]; cbn; intros H; [done |].
  f_equal.
  - apply map_ext_in. intros p Hp. apply H, elem_of_app. left.
    by apply list_elem_of_In.
  - apply IH. intros p Hp. apply H, elem_of_app. by right.
Qed.

Lemma map2d_map2d {A B C} (f : A -> B) (g : B -> C) rows :
  map2d g (map2d f rows) = map2d (fun p => g (f p)) rows.
Proof.
  unfold map2d. rewrite map_map. apply map_ext. intros r. apply map_map.
Qed.

Lemma map2d_shape {A B} (f : A -> B) rows :
  nrows (map2d f rows) = nrows rows /\
  Forall2 (fun r r' => length r' = length r) rows (map2d f rows).
Proof.
  unfold nrows, map2d. split; [apply length_map |].
  induction rows; cbn; constructor; [apply length_map | done].
Qed.

(** ** [rescale_pattern_intensity] *)

Lemma result_bind_raise {A B} (r : result A) (k : A -> result B) e :
  r ≫= k = Raise e -> r = Raise e \/ exists a, r = Ok a /\ k a = Raise e.
Proof.
  destruct r as [a | e']; cbn; intros H; [right; eauto | left; congruence].
Qed.

Lemma np_min_raises rows e : np_min rows = Raise e -> e <> ValueError not_unsigned_msg.
Proof. unfold np_min. destruct (concat rows); intros [= <-]; discriminate. Qed.

Lemma np_max_raises rows e : np_max rows = Raise e -> e <> ValueError not_unsigned_msg.
Proof. unfold np_max. destruct (concat rows); intros [= <-]; discriminate. Qed.

Lemma np_subtract_scalar_raises a imin e :
  np_subtract_scalar a imin = Raise e -> e <> ValueError not_unsigned_msg.
Proof.
  unfold np_subtract_scalar. destruct imin as [v | v]; [discriminate |].
  destruct (result_type (idt a) v) as [[t |] |]; intros [= <-]; discriminate.
Qed.

(** C2: the call fails with the ValueError "Data type is not unsigned
    integer." exactly when [dtype_out] is not an unsigned integer dtype,
    whatever the pattern, [imin] and [scale] are: the check comes before any
    computation on the pattern, and no later step raises this error. *)
Theorem rescale_dtype_validation cu pattern imin scale dtype_out :
  rescale_pattern_intensity cu pattern imin scale dtype_out
    = Raise (ValueError not_unsigned_msg)
  <-> is_unsignedinteger dtype_out = false.
Proof.
  unfold rescale_pattern_intensity.
  destruct dtype_out as [| [[] w] | | |]; cbn [is_unsignedinteger signed negb];
    try (split; [reflexivity | reflexivity]).
  split; [| discriminate]. intros H. exfalso.
  apply result_bind_raise in H as [H | ([imin' scale'] & H1 & H)].
  - destruct imin as [imin |], scale as [scale |]; try discriminate H.
    apply result_bind_raise in H as [H | (m & _ & H)];
      [by eapply np_min_raises |].
    apply result_bind_raise in H as [H | (M & _ & H)];
      [by eapply np_max_raises | discriminate H].
  - apply result_bind_raise in H as [H | (shifted & _ & H)].
    + destruct imin' as [imin' |]; [| discriminate H].
      by eapply np_subtract_scalar_raises.
    + destruct scale'; discriminate H.
Qed.

Section AutomaticMode.

Variable pattern : iarray.
Hypothesis Hwf : in_dtype pattern.
Hypothesis Hne : concat (irows pattern) <> [].

Lemma auto_min : np_min (irows pattern) = Ok (pixel_min pattern).
Proof. destruct (np_min_spec _ Hne) as (m & -> & _ & _ & ->). done. Qed.

Lemma auto_max : np_max (irows pattern) = Ok (pixel_max pattern).
Proof. destruct (np_max_spec _ Hne) as (m & -> & _ & _ & ->). done. Qed.

Lemma pixel_bounds p :
  p ∈ concat (irows pattern) ->
  iinfo_min (idt pattern) <= pixel_min pattern <= p /\
  p <= pixel_max pattern <= iinfo_max (idt pattern).
Proof.
  intros Hp.
  destruct (np_min_spec _ Hne) as (m & _ & Hin & Hle & Hm).
  destruct (np_max_spec _ Hne) as (M & _ & Hin' & Hle' & HM).
  fold (pixel_min pattern) in Hm. fold (pixel_max pattern) in HM. subst m M.
  pose proof (in_dtype_concat _ Hwf) as Hr.
  rewrite Forall_forall in Hle, Hle', Hr.
  pose proof (Hr _ Hin) as H1. pose proof (Hr _ Hin') as H2.
  apply in_range_bounds in H1, H2.
  pose proof (Hle _ Hp). pose proof (Hle' _ Hp). lia.
Qed.

Lemma min_le_max :
  iinfo_min (idt pattern) <= pixel_min pattern <= pixel_max pattern /\
  pixel_max pattern <= iinfo_max (idt pattern).
Proof.
  destruct (np_min_spec _ Hne) as (m & _ & Hin & _ & Hm).
  fold (pixel_min pattern) in Hm. subst m.
  destruct (pixel_bounds _ Hin). lia.
Qed.

(** On an unsigned array no difference to the minimum wraps. *)
Lemma unsigned_shift_exact p :
  signed (idt pattern) = false -> p ∈ concat (irows pattern) ->
  wrap (idt pattern) (p - pixel_min pattern) = p - pixel_min pattern.
Proof.
  intros Hu Hp. destruct (pixel_bounds _ Hp) as [H1 H2].
  apply wrap_in_range, in_range_bounds.
  unfold iinfo_min in *. rewrite Hu in *. lia.
Qed.

Lemma unsigned_divisor_exact :
  signed (idt pattern) = false ->
  wrap (idt pattern) (pixel_max pattern - pixel_min pattern)
  = pixel_max pattern - pixel_min pattern.
Proof.
  intros Hu. destruct min_le_max as [H1 H2].
  apply wrap_in_range, in_range_bounds.
  unfold iinfo_min in *. rewrite Hu in *. lia.
Qed.

(** The divisor is zero exactly on a constant pattern, for every dtype. *)
Lemma divisor_zero_iff :
  wrap (idt pattern) (pixel_max pattern - pixel_min pattern) = 0
  <-> pixel_min pattern = pixel_max pattern.
Proof.
  destruct min_le_max as [H1 H2]. revert H1 H2.
  generalize (pixel_min pattern) (pixel_max pattern). intros a b.
  destruct pattern as [t rows]. cbn [idt]. dtype_cases t; intros H1 H2.
  all: split; [| intros ->; rewrite ?Z.sub_diag; reflexivity].
  all: intros H; Z.div_mod_to_equations; lia.
Qed.

(** The automatic mode, unfolded: it returns. *)
Lemma rescale_auto_unfold cu w :
  rescale_pattern_intensity cu pattern None None (DInt (IDtype false w))
  = Ok (IArray (IDtype false w)
          (map2d (fun p =>
                    float_to_int cu (IDtype false w)
                      (fmul (Z2F (wrap (idt pattern) (p - pixel_min pattern)))
                         (fdiv (Z2F (iinfo_max (IDtype false w)))
                            (Z2F (wrap (idt pattern)
                                    (pixel_max pattern - pixel_min pattern))))))
             (irows pattern))).
Proof.
  unfold rescale_pattern_intensity.
  cbn [signed]. rewrite auto_min, auto_max.
  cbn [mbind result_bind np_subtract_scalar np_multiply_float irows idt].
  by rewrite map2d_map2d, map2d_map2d.
Qed.

End AutomaticMode.

(** C1 (amended): on a non-empty unsigned pattern the automatic mode returns
    the array the specification describes: [omax] the largest value of
    [dtype_out], [imin] the smallest pixel, [scale = omax / (max - imin)] in
    float64, each output pixel the conversion of [(p - imin) * scale]; the
    output has dtype [dtype_out] and the shape of the input, and the
    conversion takes the integer part (truncation) wherever [dtype_out]
    holds it. *)
Theorem rescale_auto_refines_spec cu pattern t_out :
  signed (idt pattern) = false -> signed t_out = false ->
  in_dtype pattern -> concat (irows pattern) <> [] ->
  rescale_pattern_intensity cu pattern None None (DInt t_out)
    = Ok (spec_rescale_auto cu pattern t_out)
  /\ idt (spec_rescale_auto cu pattern t_out) = t_out
  /\ Forall2 (fun r r' => length r' = length r)
       (irows pattern) (irows (spec_rescale_auto cu pattern t_out))
  /\ (forall x z, trunc x = Some z -> in_range t_out z = true ->
        float_to_int cu t_out x = z).
Proof.
  intros Hu Ho Hwf Hne. destruct t_out as [s w]. cbn in Ho. subst s.
  split; [| split; [done | split]].
  - rewrite rescale_auto_unfold by done.
    unfold spec_rescale_auto. f_equal. f_equal.
    rewrite (unsigned_divisor_exact _ Hwf Hne Hu).
    apply map2d_ext_in. intros p Hp.
    by rewrite (unsigned_shift_exact _ Hwf Hne p Hu Hp).
  - apply map2d_shape.
  - intros x z Hx Hz. unfold float_to_int. by rewrite Hx, Hz.
Qed.

Lemma rescale_auto_refines_spec_witness :
  rescale_pattern_intensity cast_modular
    (IArray uint8 [[0; 1; 2; 3]; [4; 5; 6; 7]]) None None (DInt uint8)
  = Ok (IArray uint8 [[0; 36; 72; 109]; [145; 182; 218; 255]]).
Proof.
  pose proof (rescale_auto_refines_spec cast_modular
    (IArray uint8 [[0; 1; 2; 3]; [4; 5; 6; 7]]) uint8
    eq_refl eq_refl ltac:(repeat constructor) ltac:(discriminate)) as [H _].
  rewrite H. vm_compute. reflexivity.
Defined.

(** The counterexample to C1 as stated: a zero-size pattern has no minimum,
    and the call raises instead of returning an array. *)
Lemma rescale_auto_empty_pattern :
  rescale_pattern_intensity cast_modular (IArray uint8 []) None None (DInt uint8)
  = Raise (ValueError
      "zero-size array to reduction operation minimum which has no identity").
Proof. reflexivity. Qed.

Lemma zero_times_inf : fmul (Z2F 0) finf = fnan.
Proof. reflexivity. Qed.

Lemma omax_over_zero t : fdiv (Z2F (iinfo_max t)) (Z2F 0) = finf.
Proof. destruct t as [[] []]; vm_compute; reflexivity. Qed.

Lemma wrap_zero t : wrap t 0 = 0.
Proof. by destruct t as [[] []]. Qed.

(** C10 (amended): in the automatic mode nothing guards the division.  On a
    non-empty pattern the divisor is zero exactly when the pattern is
    constant; on an unsigned pattern it is [max - min], strictly positive
    when the pattern is not constant.  A zero divisor raises nothing: the
    float64 quotient is [+inf], every pixel is [0 * inf = NaN], and the call
    still returns an array, holding what the platform's conversion stores
    for NaN. *)
Theorem rescale_auto_divisor cu pattern t_out :
  signed t_out = false -> in_dtype pattern -> concat (irows pattern) <> [] ->
  let imin := pixel_min pattern in
  let pmax := pixel_max pattern in
  let divisor := wrap (idt pattern) (pmax - imin) in
  np_min (irows pattern) = Ok imin /\ np_max (irows pattern) = Ok pmax /\
  imin <= pmax /\
  (imin = pmax <-> divisor = 0) /\
  (signed (idt pattern) = false ->
     divisor = pmax - imin /\ (imin < pmax -> 0 < divisor)) /\
  is_ok (rescale_pattern_intensity cu pattern None None (DInt t_out)) = true /\
  (imin = pmax ->
     fdiv (Z2F (iinfo_max t_out)) (Z2F divisor) = finf /\
     rescale_pattern_intensity cu pattern None None (DInt t_out)
     = Ok (IArray t_out
             (map2d (fun _ => wrap t_out (cu t_out fnan)) (irows pattern)))).
Proof.
  intros Ho Hwf Hne. cbv zeta. destruct t_out as [s w]. cbn in Ho. subst s.
  split; [by apply auto_min |]. split; [by apply auto_max |].
  pose proof (min_le_max _ Hwf Hne) as [Hle _].
  split; [lia |].
  split; [split; intros H; [by apply divisor_zero_iff | by apply divisor_zero_iff in H] |].
  split.
  { intros Hu. rewrite (unsigned_divisor_exact _ Hwf Hne Hu). lia. }
  rewrite rescale_auto_unfold by done. split; [done |].
  intros Heq. rewrite <- Heq, Z.sub_diag, wrap_zero, omax_over_zero.
  split; [done |].
  f_equal. f_equal. apply map2d_ext_in. intros p Hp.
  destruct (pixel_bounds _ Hwf Hne p Hp) as [H1 H2].
  replace p with (pixel_min pattern) by lia.
  by rewrite Z.sub_diag, wrap_zero, zero_times_inf.
Qed.

Lemma rescale_auto_divisor_witness :
  np_min [[3; 9]; [5; 4]] = Ok 3 /\ np_max [[3; 9]; [5; 4]] = Ok 9 /\
  3 <= 9 /\
  (3 = 9 <-> wrap uint8 (9 - 3) = 0) /\
  (false = false -> wrap uint8 (9 - 3) = 9 - 3 /\ (3 < 9 -> 0 < wrap uint8 (9 - 3))) /\
  is_ok (rescale_pattern_intensity cast_modular
           (IArray uint8 [[3; 9]; [5; 4]]) None None (DInt uint8)) = true /\
  (3 = 9 ->
     fdiv (Z2F (iinfo_max uint8)) (Z2F (wrap uint8 (9 - 3))) = finf /\
     rescale_pattern_intensity cast_modular
       (IArray uint8 [[3; 9]; [5; 4]]) None None (DInt uint8)
     = Ok (IArray uint8
             (map2d (fun _ => wrap uint8 (cast_modular uint8 fnan))
                [[3; 9]; [5; 4]]))).
Proof.
  exact (rescale_auto_divisor cast_modular (IArray uint8 [[3; 9]; [5; 4]]) uint8
           eq_refl ltac:(repeat constructor) ltac:(discriminate)).
Defined.

(** The counterexample to C10 as stated: on a constant pattern the divisor
    is zero, and the call returns all the same. *)
Lemma rescale_auto_constant_pattern_returns :
  np_max [[7; 7]; [7; 7]] = Ok 7 /\ np_min [[7; 7]; [7; 7]] = Ok 7 /\
  rescale_pattern_intensity cast_modular
    (IArray uint8 [[7; 7]; [7; 7]]) None None (DInt uint8)
  = Ok (IArray uint8 [[0; 0]; [0; 0]]).
Proof. repeat split; vm_compute; reflexivity. Qed.

Lemma float_to_int_range cu t x : in_range t (float_to_int cu t x) = true.
Proof.
  unfold float_to_int. destruct (trunc x) as [z |]; [| apply wrap_range].
  destruct (in_range t z) eqn:E; [exact E | apply wrap_range].
Qed.

(** Whatever [imin] and [scale] are, an array that the call returns has the
    requested unsigned dtype and holds values of that dtype only. *)
Theorem rescale_output_in_dtype cu pattern imin scale dtype_out out :
  rescale_pattern_intensity cu pattern imin scale dtype_out = Ok out ->
  dtype_out = DInt (idt out) /\ signed (idt out) = false /\ in_dtype out.
Proof.
  unfold rescale_pattern_intensity.
  destruct dtype_out as [| [[] w] | | |]; try discriminate.
  destruct (match imin, scale with
            | None, None => _
            | _, _ => _
            end) as [[imin' scale'] | e]; [| discriminate].
  cbn [mbind result_bind].
  destruct (match imin' with Some _ => _ | None => _ end) as [shifted | e];
    [| discriminate].
  cbn [mbind result_bind]. destruct scale' as [scale' |]; [| discriminate].
  intros [= <-]. cbn [idt irows]. split; [done |]. split; [done |].
  unfold in_dtype, map2d. cbn [idt irows].
  apply Forall_map, Forall_forall. intros r _.
  apply Forall_map, Forall_forall. intros x _. apply float_to_int_range.
Qed.

Lemma rescale_output_in_dtype_witness :
  DInt uint8 = DInt uint8 /\ false = false /\
  in_dtype (IArray uint8 [[190; 251]; [0; 245]]).
Proof.
  exact (rescale_output_in_dtype cast_saturating
           (IArray uint8 [[200; 5]; [10; 255]]) (Some 10) (Some (Z2F 1))
           (DInt uint8) (IArray uint8 [[190; 251]; [0; 245]])
           ltac:(vm_compute; reflexivity)).
Defined.

(** ** [correct_background] *)

(** C5: with neither flag set the pattern is returned as it came, whatever
    the other arguments are. *)
Theorem correct_background_passthrough cu blur pattern bg sigma imin scale :
  correct_background cu blur pattern false false bg sigma imin scale = Ok pattern.
Proof. reflexivity. Qed.

(** C4: the static path casts to [int8], which does not hold the range
    [-255 .. 255] of differences of 8-bit pixels: the pixel 200 is cast to
    -56, the background 255 to -1, and the differences come out as -56 and 1
    where exact arithmetic gives 200 and -255. *)
Theorem static_subtract_wraps :
  in_range int8 (iinfo_max uint8) = false /\
  in_range int8 (- iinfo_max uint8) = false /\
  astype int8 (IArray uint8 [[200; 0]]) = IArray int8 [[-56; 0]] /\
  astype int8 (IArray uint8 [[0; 255]]) = IArray int8 [[0; -1]] /\
  subtract_as int8 (IArray uint8 [[200; 0]]) (IArray uint8 [[0; 255]])
  = Ok (IArray int8 [[-56; 1]]) /\
  zip2d Z.sub [[200; 0]] [[0; 255]] = [[200; -255]].
Proof. repeat split; vm_compute; reflexivity. Qed.

(** The dynamic path's [int16] holds the same differences exactly. *)
Lemma dynamic_subtract_exact_example :
  subtract_as int16 (IArray uint8 [[200; 0]]) (IArray uint8 [[0; 255]])
  = Ok (IArray int16 [[200; -255]]).
Proof. vm_compute; reflexivity. Qed.

(** C3: static correction with an all-zero background against the plain
    rescale, both with [imin = 0] and [scale = 1.0], on the [uint64] pixels
    [2^53] and [2^53 + 1].  The cast to [int8] keeps the low byte, so the
    correction returns 0 and 1; the rescale converts both pixels to the same
    float64 and returns the same value [v] for both, whatever the platform
    stores.  The two results differ on one of the two patterns. *)
Theorem static_zero_background_differs cu blur sigma :
  let one := Z2F 1 in
  let zeros := IArray uint64 [[0]] in
  let p := IArray uint64 [[2 ^ 53]] in
  let q := IArray uint64 [[2 ^ 53 + 1]] in
  exists v,
    rescale_pattern_intensity cu p (Some 0) (Some one) (DInt uint8)
      = Ok (IArray uint8 [[v]]) /\
    rescale_pattern_intensity cu q (Some 0) (Some one) (DInt uint8)
      = Ok (IArray uint8 [[v]]) /\
    correct_background cu blur p true false zeros sigma (Some 0) (Some one)
      = Ok (IArray uint8 [[0]]) /\
    correct_background cu blur q true false zeros sigma (Some 0) (Some one)
      = Ok (IArray uint8 [[1]]).
Proof.
  cbv zeta. eexists. repeat split; vm_compute; reflexivity.
Qed.

(** The same divergence on an 8-bit pattern, where the conversion of a
    negative float64 saturates: the pixel 200 comes back as 0. *)
Lemma static_zero_background_saturating :
  correct_background cast_saturating no_blur (IArray uint8 [[200; 3]]) true false
    (IArray uint8 [[0; 0]]) (Z2F 1) (Some 0) (Some (Z2F 1))
  = Ok (IArray uint8 [[0; 3]]) /\
  rescale_pattern_intensity cast_saturating (IArray uint8 [[200; 3]])
    (Some 0) (Some (Z2F 1)) (DInt uint8)
  = Ok (IArray uint8 [[200; 3]]).
Proof. split; vm_compute; reflexivity. Qed.

(** Where the conversion wraps, the byte lost by [int8] is restored and the
    two agree on the same pattern. *)
Lemma static_zero_background_modular :
  correct_background cast_modular no_blur (IArray uint8 [[200; 3]]) true false
    (IArray uint8 [[0; 0]]) (Z2F 1) (Some 0) (Some (Z2F 1))
  = rescale_pattern_intensity cast_modular (IArray uint8 [[200; 3]])
      (Some 0) (Some (Z2F 1)) (DInt uint8).
Proof. vm_compute; reflexivity. Qed.

(** ** The store *)

Lemma M_bind_run {A B} (m : M A) (k : A -> M B) σ :
  (m ≫= k) σ = match m σ with
                | (Ok a, σ') => k a σ'
                | (Raise e, σ') => (Raise e, σ')
                end.
Proof. reflexivity. Qed.

Lemma load_old (σ : store) l a x :
  σ !! l = Some a -> load l (σ ++ [x]) = (Ok a, σ ++ [x]).
Proof. intros H. unfold load. by rewrite (lookup_app_l_Some _ _ _ _ H). Qed.

Lemma load_new (σ : store) x : load (length σ) (σ ++ [x]) = (Ok x, σ ++ [x]).
Proof. unfold load. by rewrite list_lookup_middle. Qed.

Lemma put_new (σ : store) x y : put (length σ) y (σ ++ [x]) = (Ok tt, σ ++ [y]).
Proof.
  unfold put. rewrite insert_app_r_alt by lia. by rewrite Nat.sub_diag.
Qed.

Lemma np_copy_run (σ : store) l a :
  σ !! l = Some a -> np_copy l σ = (Ok (length σ), σ ++ [a]).
Proof.
  intros H. unfold np_copy. rewrite M_bind_run. unfold load. by rewrite H.
Qed.

(** An assignment through the reference of the copy touches the copy only. *)
Lemma setitem_new (σ : store) cur i j v :
  setitem (length σ) i j v (σ ++ [cur])
  = match assign cur i j v with
    | Ok cur' => (Ok tt, σ ++ [cur'])
    | Raise e => (Raise e, σ ++ [cur])
    end.
Proof.
  unfold setitem. rewrite M_bind_run, load_new, M_bind_run. unfold lift.
  destruct (assign cur i j v); [apply put_new | done].
Qed.

(** A loop whose body acts on the copy as [step] does runs as [run_writes]. *)
Lemma for_each_run (body : Z * Z -> M unit) step (σ : store) :
  (forall cur ij,
      body ij (σ ++ [cur])
      = match step cur ij with
        | Ok cur' => (Ok tt, σ ++ [cur'])
        | Raise e => (Raise e, σ ++ [cur])
        end) ->
  forall deadpixels cur,
    for_each deadpixels body (σ ++ [cur])
    = (fst (run_writes step cur deadpixels),
       σ ++ [snd (run_writes step cur deadpixels)]).
Proof.
  intros Hbody. induction deadpixels as [|ij rest IH]; intros cur; [done |].
  cbn [for_each run_writes]. rewrite M_bind_run, Hbody.
  destruct (step cur ij) as [cur' | e]; [apply IH | done].
Qed.

Lemma average_body_run (σ : store) l a d cur ij :
  σ !! l = Some a ->
  (let '(i, j) := ij in
   pat ← load l;
   neighbours ← lift (np_delete (flat_neighbours pat i j d) 4);
   v ← lift (py_int (np_mean neighbours));
   setitem (length σ) i j (PyI v)) (σ ++ [cur])
  = match average_step a d cur ij with
    | Ok cur' => (Ok tt, σ ++ [cur'])
    | Raise e => (Raise e, σ ++ [cur])
    end.
Proof.
  intros H. destruct ij as [i j]. unfold average_step. cbn [fst snd].
  rewrite M_bind_run, (load_old _ _ _ _ H), M_bind_run. unfold lift at 1.
  destruct (np_delete (flat_neighbours a i j d) 4) as [ns | e]; [| done].
  cbn [mbind result_bind]. rewrite M_bind_run. unfold lift.
  destruct (py_int (np_mean ns)) as [v | e]; [| done].
  cbn [mbind result_bind]. apply setitem_new.
Qed.

(** [remove_dead] allocates one object, the copy, at the end of the store and
    writes into it alone: the store it leaves is the store it found followed
    by the final value of the copy. *)
Lemma remove_dead_run (σ : store) l a deadpixels deadvalue d :
  σ !! l = Some a ->
  remove_dead l deadpixels deadvalue d σ
  = (match fst (remove_dead_writes a deadpixels deadvalue d) with
     | Ok _ => Ok (length σ)
     | Raise e => Raise e
     end,
     σ ++ [snd (remove_dead_writes a deadpixels deadvalue d)]).
Proof.
  intros H. unfold remove_dead, remove_dead_writes.
  rewrite M_bind_run, (np_copy_run _ _ _ H), M_bind_run.
  destruct (String.eqb deadvalue "average").
  - rewrite (for_each_run _ (average_step a d)).
    + by destruct (fst (run_writes (average_step a d) a deadpixels)).
    + intros cur ij. by apply average_body_run.
  - destruct (String.eqb deadvalue "nan").
    + rewrite (for_each_run _ nan_step).
      * by destruct (fst (run_writes nan_step a deadpixels)).
      * intros cur [i j]. apply setitem_new.
    + done.
Qed.

(** ** [remove_dead] *)

Lemma norm_index_raises n i e : norm_index n i = Raise e -> loop_exn e.
Proof.
  unfold norm_index. repeat case_match; intros [= <-]; exact I.
Qed.

Lemma py_int_raises x e : py_int x = Raise e -> loop_exn e.
Proof.
  unfold py_int. repeat case_match; intros [= <-]; exact I.
Qed.

Lemma assign_raises a i j v e : assign a i j v = Raise e -> loop_exn e.
Proof.
  unfold assign. intros H.
  apply result_bind_raise in H as [H | (r & _ & H)];
    [by eapply norm_index_raises |].
  apply result_bind_raise in H as [H | (c & _ & H)];
    [by eapply norm_index_raises |].
  destruct a as [a | rows]; [| discriminate H].
  apply result_bind_raise in H as [H | (z & _ & H)].
  - destruct v; [discriminate H | by eapply py_int_raises].
  - case_match; [discriminate H |]. by injection H as <-.
Qed.

Lemma average_step_raises pat d cur ij e :
  average_step pat d cur ij = Raise e -> loop_exn e.
Proof.
  unfold average_step. intros H.
  apply result_bind_raise in H as [H | (ns & _ & H)].
  { unfold np_delete in H. case_match; [discriminate H |]. by injection H as <-. }
  apply result_bind_raise in H as [H | (v & _ & H)];
    [by eapply py_int_raises | by eapply assign_raises].
Qed.

Lemma run_writes_raises step cur deadpixels e :
  (forall cur ij e, step cur ij = Raise e -> loop_exn e) ->
  fst (run_writes step cur deadpixels) = Raise e -> loop_exn e.
Proof.
  intros Hstep. revert cur. induction deadpixels as [|ij rest IH]; intros cur;
    cbn [run_writes]; [discriminate |].
  destruct (step cur ij) as [cur' | e'] eqn:E; [apply IH |].
  cbn. intros [= <-]. by eapply Hstep.
Qed.

(** C8: on a stored pattern the call fails with [NotImplementedError], and
    the message that the method is not implemented, exactly when
    [deadvalue] is neither "average" nor "nan", whatever the pattern and the
    dead pixels are (an empty list included). *)
Theorem remove_dead_unsupported (σ : store) l a deadpixels deadvalue d :
  σ !! l = Some a ->
  (fst (remove_dead l deadpixels deadvalue d σ)
     = Raise (NotImplementedError not_implemented_msg)
   <-> deadvalue <> "average"%string /\ deadvalue <> "nan"%string)
  /\ ((exists msg, fst (remove_dead l deadpixels deadvalue d σ)
                   = Raise (NotImplementedError msg))
      -> deadvalue <> "average"%string /\ deadvalue <> "nan"%string).
Proof.
  intros H. rewrite (remove_dead_run _ _ _ _ _ _ H). cbn [fst].
  unfold remove_dead_writes.
  destruct (String.eqb_spec deadvalue "average") as [-> | Hav].
  { assert (forall msg,
      match fst (run_writes (average_step a d) a deadpixels) with
      | Ok _ => Ok (length σ)
      | Raise e => Raise e
      end <> Raise (NotImplementedError msg)) as Hno.
    { intros msg. destruct (fst (run_writes _ a deadpixels)) as [| e] eqn:E;
        [discriminate |].
      intros [= ->].
      apply (run_writes_raises _ _ _ _ (average_step_raises a d)) in E.
      exact E. }
    split; [split |].
    - intros Hr. by apply Hno in Hr.
    - intros [Hc _]. by destruct Hc.
    - intros [msg Hr]. by apply Hno in Hr. }
  destruct (String.eqb_spec deadvalue "nan") as [-> | Hnan].
  { assert (forall msg,
      match fst (run_writes nan_step a deadpixels) with
      | Ok _ => Ok (length σ)
      | Raise e => Raise e
      end <> Raise (NotImplementedError msg)) as Hno.
    { intros msg. destruct (fst (run_writes _ a deadpixels)) as [| e] eqn:E;
        [discriminate |].
      intros [= ->].
      apply (run_writes_raises nan_step) in E; [exact E |].
      intros cur ij e. apply assign_raises. }
    split; [split |].
    - intros Hr. by apply Hno in Hr.
    - intros [_ Hc]. by destruct Hc.
    - intros [msg Hr]. by apply Hno in Hr. }
  cbn [fst]. repeat split; done.
Qed.

Lemma remove_dead_unsupported_witness :
  fst (remove_dead 0%nat [] "median" 1
         [IntArray (IArray uint8 [[1; 2]; [3; 4]])])
  = Raise (NotImplementedError not_implemented_msg).
Proof.
  apply (remove_dead_unsupported [IntArray (IArray uint8 [[1; 2]; [3; 4]])]
           0%nat _ [] "median" 1 eq_refl).
  split; discriminate.
Defined.

(** C9: a successful call returns a reference that did not exist before, so
    it is not the reference of the input; the object of the input, and every
    other object of the store, is as it was; and a later write through either
    reference leaves the object of the other as it is. *)
Theorem remove_dead_copy_isolated (σ σ' : store) l l' deadpixels deadvalue d :
  remove_dead l deadpixels deadvalue d σ = (Ok l', σ') ->
  exists a,
    σ !! l = Some a /\
    σ !! l' = None /\ l' <> l /\
    σ' !! l = Some a /\
    (forall k, k <> l' -> σ' !! k = σ !! k) /\
    is_Some (σ' !! l') /\
    (forall x, <[l' := x]> σ' !! l = Some a) /\
    (forall x, <[l := x]> σ' !! l' = σ' !! l').
Proof.
  intros Hrun. destruct (σ !! l) as [a |] eqn:Hl.
  2: { unfold remove_dead in Hrun. rewrite M_bind_run in Hrun.
       unfold np_copy in Hrun. rewrite M_bind_run in Hrun.
       unfold load in Hrun. rewrite Hl in Hrun. discriminate Hrun. }
  rewrite (remove_dead_run _ _ _ _ _ _ Hl) in Hrun.
  destruct (fst (remove_dead_writes a deadpixels deadvalue d));
    [| discriminate Hrun].
  injection Hrun as <- <-.
  pose proof (lookup_lt_Some _ _ _ Hl) as Hlt.
  exists a. split; [done |].
  split; [by apply lookup_ge_None_2 |]. split; [lia |].
  split; [by apply lookup_app_l_Some |].
  split.
  { intros k Hk. destruct (decide (k < length σ)%nat) as [Hkl | Hkl].
    - by rewrite lookup_app_l.
    - rewrite !lookup_ge_None_2; [done | lia |].
      rewrite length_app. cbn. lia. }
  split; [rewrite list_lookup_middle; eauto |].
  split.
  - intros x. rewrite list_lookup_insert_ne by lia. by apply lookup_app_l_Some.
  - intros x. by rewrite list_lookup_insert_ne by lia.
Qed.

Lemma remove_dead_copy_isolated_witness :
  exists a,
    [FloatArray [[Z2F 1; Z2F 2]]] !! 0%nat = Some a /\
    [FloatArray [[Z2F 1; Z2F 2]]] !! 1%nat = None /\ 1%nat <> 0%nat /\
    [FloatArray [[Z2F 1; Z2F 2]]; FloatArray [[Z2F 1; fnan]]] !! 0%nat = Some a /\
    (forall k, k <> 1%nat ->
       [FloatArray [[Z2F 1; Z2F 2]]; FloatArray [[Z2F 1; fnan]]] !! k
       = [FloatArray [[Z2F 1; Z2F 2]]] !! k) /\
    is_Some ([FloatArray [[Z2F 1; Z2F 2]]; FloatArray [[Z2F 1; fnan]]] !! 1%nat) /\
    (forall x, <[1%nat := x]>
                 [FloatArray [[Z2F 1; Z2F 2]]; FloatArray [[Z2F 1; fnan]]] !! 0%nat
               = Some a) /\
    (forall x, <[0%nat := x]>
                 [FloatArray [[Z2F 1; Z2F 2]]; FloatArray [[Z2F 1; fnan]]] !! 1%nat
               = [FloatArray [[Z2F 1; Z2F 2]]; FloatArray [[Z2F 1; fnan]]] !! 1%nat).
Proof.
  exact (remove_dead_copy_isolated
           [FloatArray [[Z2F 1; Z2F 2]]]
           [FloatArray [[Z2F 1; Z2F 2]]; FloatArray [[Z2F 1; fnan]]]
           0%nat 1%nat [(0, 1)] "nan" 1 eq_refl).
Defined.

Lemma tens_only_differs_at_centre r c :
  get2d tens 2 2 = Some 10 /\
  ((r, c) <> (2%nat, 2%nat) -> get2d tens r c = get2d tens_with_dead_pixel r c).
Proof.
  split; [reflexivity |]. intros Hne.
  do 5 (destruct r as [| r]; [do 5 (destruct c as [| c]; [done || reflexivity |]);
                              reflexivity |]).
  reflexivity.
Qed.

(** C6: on the 5x5 pattern of tens with 200 at (2, 2), of any integer dtype
    holding 200 or of float64, averaging with [d = 1] at (2, 2) returns a new
    array that holds 10 at (2, 2) (the truncated mean of the eight
    neighbours read from the input, the centre at flat index 4 left out) and
    the input's values elsewhere; the store is the one before the call
    followed by the new array, so the input is untouched. *)
Theorem remove_dead_average_interior (σ : store) l a :
  σ !! l = Some a ->
  ((exists t, in_range t 200 = true /\
              a = IntArray (IArray t tens_with_dead_pixel)) \/
   a = FloatArray (map2d Z2F tens_with_dead_pixel)) ->
  exists out,
    remove_dead l [(2, 2)] "average" 1 σ = (Ok (length σ), σ ++ [out]) /\
    (σ ++ [out]) !! l = Some a /\
    (forall t, a = IntArray (IArray t tens_with_dead_pixel) ->
               out = IntArray (IArray t tens)) /\
    (a = FloatArray (map2d Z2F tens_with_dead_pixel) ->
     out = FloatArray (map2d Z2F tens)) /\
    get2d tens 2 2 = Some 10 /\
    (forall r c, (r, c) <> (2%nat, 2%nat) ->
                 get2d tens r c = get2d tens_with_dead_pixel r c) /\
    flat_neighbours a 2 2 1 = map Z2F [10; 10; 10; 10; 200; 10; 10; 10; 10] /\
    np_delete (flat_neighbours a 2 2 1) 4 = Ok (replicate 8 (Z2F 10)) /\
    py_int (np_mean (replicate 8 (Z2F 10))) = Ok 10.
Proof.
  intros Hl Ha.
  assert (flat_neighbours a 2 2 1 = map Z2F [10; 10; 10; 10; 200; 10; 10; 10; 10])
    as Hflat by (by destruct Ha as [(t & _ & ->) | ->]).
  assert (exists out,
    remove_dead_writes a [(2, 2)] "average" 1 = (Ok tt, out) /\
    (forall t, a = IntArray (IArray t tens_with_dead_pixel) ->
               out = IntArray (IArray t tens)) /\
    (a = FloatArray (map2d Z2F tens_with_dead_pixel) ->
     out = FloatArray (map2d Z2F tens))) as (out & Hw & Hi & Hf).
  { destruct Ha as [(t & Ht & ->) | ->].
    - exists (IntArray (IArray t tens)). split; [| split].
      + destruct t as [[] []]; try discriminate Ht; vm_compute; reflexivity.
      + by intros t' [= ->].
      + discriminate.
    - exists (FloatArray (map2d Z2F tens)). split; [| split].
      + vm_compute; reflexivity.
      + discriminate.
      + done. }
  exists out. rewrite (remove_dead_run _ _ _ _ _ _ Hl), Hw. cbn [fst snd].
  split; [done |]. split; [by apply lookup_app_l_Some |].
  split; [done |]. split; [done |].
  split; [reflexivity |].
  split; [intros r c; apply tens_only_differs_at_centre |].
  split; [exact Hflat |]. rewrite Hflat. split; vm_compute; reflexivity.
Qed.

Lemma remove_dead_average_interior_witness :
  exists out,
    remove_dead 0%nat [(2, 2)] "average" 1
      [IntArray (IArray uint8 tens_with_dead_pixel)]
    = (Ok 1%nat, [IntArray (IArray uint8 tens_with_dead_pixel); out]) /\
    out = IntArray (IArray uint8 tens).
Proof.
  destruct (remove_dead_average_interior
              [IntArray (IArray uint8 tens_with_dead_pixel)] 0%nat _ eq_refl
              (or_introl (ex_intro _ uint8 (conj eq_refl eq_refl))))
    as (out & Hrun & _ & Hi & _).
  exists out. split; [exact Hrun | exact (Hi uint8 eq_refl)].
Defined.

(** *** Writes into a rectangular array *)

Lemma set2d_nrows {A} (rows : list (list A)) r c v :
  nrows (set2d rows r c v) = nrows rows.
Proof. unfold nrows, set2d. apply length_alter. Qed.

Lemma set2d_ncols {A} (rows : list (list A)) r c v :
  ncols (set2d rows r c v) = ncols rows.
Proof.
  unfold set2d. destruct rows as [| row rows]; [done |].
  destruct r; cbn; [apply length_insert | done].
Qed.

Lemma set2d_rect {A} (rows : list (list A)) r c v :
  rect rows -> rect (set2d rows r c v).
Proof.
  unfold rect. rewrite set2d_ncols. unfold set2d. intros H.
  apply Forall_forall. intros row Hrow.
  apply list_elem_of_lookup in Hrow as [k Hk].
  destruct (decide (r = k)) as [<- | Hne].
  - rewrite list_lookup_alter_eq in Hk.
    destruct (rows !! r) as [row0 |] eqn:E; cbn in Hk; [| discriminate Hk].
    injection Hk as <-. rewrite length_insert.
    rewrite Forall_forall in H. apply H. eapply list_elem_of_lookup_2, E.
  - rewrite list_lookup_alter_ne in Hk by done.
    rewrite Forall_forall in H. apply H. eapply list_elem_of_lookup_2, Hk.
Qed.

Lemma get2d_set2d {A} (rows : list (list A)) r c v r' c' :
  rect rows -> (r < nrows rows)%nat -> (c < ncols rows)%nat ->
  get2d (set2d rows r c v) r' c'
  = if (r' =? r)%nat && (c' =? c)%nat then Some v else get2d rows r' c'.
Proof.
  intros Hrect Hr Hc. unfold get2d, set2d.
  destruct (Nat.eqb_spec r' r) as [-> | Hne]; cbn [andb].
  - rewrite list_lookup_alter_eq.
    destruct (lookup_lt_is_Some_2 rows r Hr) as [row Hrow]. rewrite Hrow. cbn.
    assert (length row = ncols rows) as Hlen.
    { unfold rect in Hrect. rewrite Forall_forall in Hrect.
      apply Hrect. eapply list_elem_of_lookup_2, Hrow. }
    destruct (Nat.eqb_spec c' c) as [-> | Hne].
    + apply list_lookup_insert_eq. lia.
    + by apply list_lookup_insert_ne.
  - by rewrite list_lookup_alter_ne.
Qed.

Lemma norm_index_lt n i r : norm_index n i = Ok r -> (r < n)%nat.
Proof.
  unfold norm_index.
  destruct ((0 <=? i) && (i <? Z.of_nat n)) eqn:E1.
  { intros [= <-]. apply andb_true_iff in E1 as [H1 H2]. lia. }
  destruct ((- Z.of_nat n <=? i) && (i <? 0)) eqn:E2; [| discriminate].
  intros [= <-]. apply andb_true_iff in E2 as [H1 H2]. lia.
Qed.

Lemma nan_writes_float rows deadpixels :
  rect rows ->
  Forall (addressable (nrows rows) (ncols rows)) deadpixels ->
  exists out,
    run_writes nan_step (FloatArray rows) deadpixels = (Ok tt, FloatArray out) /\
    rect out /\ nrows out = nrows rows /\ ncols out = ncols rows /\
    (forall r c,
        get2d out r c
        = if listed (nrows rows) (ncols rows) deadpixels r c then Some fnan
          else get2d rows r c).
Proof.
  intros Hrect Hdp. revert rows Hrect Hdp.
  induction deadpixels as [| [i j] rest IH]; intros rows Hrect Hdp.
  { exists rows. by repeat split. }
  apply Forall_cons in Hdp as [[Hi Hj] Hrest]. cbn [fst snd] in Hi, Hj.
  cbn [run_writes]. unfold nan_step at 1, assign. cbn [fst snd shape].
  destruct (norm_index (nrows rows) i) as [r0 |] eqn:Ei; [| cbn in Hi; discriminate Hi].
  destruct (norm_index (ncols rows) j) as [c0 |] eqn:Ej; [| cbn in Hj; discriminate Hj].
  cbn [mbind result_bind].
  pose proof (norm_index_lt _ _ _ Ei) as Hr0.
  pose proof (norm_index_lt _ _ _ Ej) as Hc0.
  destruct (IH (set2d rows r0 c0 fnan)) as (out & Hrun & Hrect' & Hnr & Hnc & Hget).
  { by apply set2d_rect. }
  { by rewrite set2d_nrows, set2d_ncols. }
  exists out. rewrite set2d_nrows in *. rewrite set2d_ncols in *.
  split; [exact Hrun |]. split; [done |]. split; [done |]. split; [done |].
  intros r c. rewrite Hget. cbn [listed existsb fst snd]. rewrite Ei, Ej.
  fold (listed (nrows rows) (ncols rows) rest r c).
  rewrite get2d_set2d by done.
  destruct (listed (nrows rows) (ncols rows) rest r c);
    [by rewrite orb_true_r |].
  rewrite orb_false_r. done.
Qed.

(** What the "nan" mode does where it works: on a float64 pattern and dead
    pixels that address it (negative indices counting from the end), it
    returns a new array of the same shape that holds NaN at every listed
    coordinate and the input's value at every other one; the input is
    untouched. *)
Theorem remove_dead_nan_float (σ : store) l rows deadpixels d :
  σ !! l = Some (FloatArray rows) ->
  rect rows ->
  Forall (addressable (nrows rows) (ncols rows)) deadpixels ->
  exists out,
    remove_dead l deadpixels "nan" d σ = (Ok (length σ), σ ++ [FloatArray out]) /\
    (σ ++ [FloatArray out]) !! l = Some (FloatArray rows) /\
    rect out /\ nrows out = nrows rows /\ ncols out = ncols rows /\
    (forall r c,
        get2d out r c
        = if listed (nrows rows) (ncols rows) deadpixels r c then Some fnan
          else get2d rows r c).
Proof.
  intros Hl Hrect Hdp.
  destruct (nan_writes_float rows deadpixels Hrect Hdp)
    as (out & Hrun & Hrect' & Hnr & Hnc & Hget).
  exists out. rewrite (remove_dead_run _ _ _ _ _ _ Hl).
  unfold remove_dead_writes. cbn [String.eqb Ascii.eqb Bool.eqb].
  rewrite Hrun. cbn [fst snd].
  split; [done |]. split; [by apply lookup_app_l_Some |]. done.
Qed.

Lemma remove_dead_nan_float_witness :
  exists out,
    remove_dead 0%nat [(1, 1); (-1, 0)] "nan" 1
      [FloatArray [[Z2F 1; Z2F 2]; [Z2F 3; Z2F 4]]]
    = (Ok 1%nat, [FloatArray [[Z2F 1; Z2F 2]; [Z2F 3; Z2F 4]]; FloatArray out]) /\
    get2d out 1 1 = Some fnan /\ get2d out 1 0 = Some fnan /\
    get2d out 0 0 = Some (Z2F 1) /\ get2d out 0 1 = Some (Z2F 2).
Proof.
  destruct (remove_dead_nan_float
              [FloatArray [[Z2F 1; Z2F 2]; [Z2F 3; Z2F 4]]] 0%nat
              [[Z2F 1; Z2F 2]; [Z2F 3; Z2F 4]] [(1, 1); (-1, 0)] 1 eq_refl
              ltac:(repeat constructor)
              ltac:(repeat constructor))
    as (out & Hrun & _ & _ & _ & _ & Hget).
  exists out. split; [exact Hrun |].
  rewrite !Hget. repeat split; reflexivity.
Defined.

(** C7: on an integer pattern the "nan" mode does not return the copy with
    NaN at the dead pixel.  The copy keeps the integer dtype of the input,
    which cannot hold NaN, and the first write raises; the copy, still equal
    to the input, is left behind in the store. *)
Theorem remove_dead_nan_integer_pattern :
  remove_dead 0%nat [(2, 2)] "nan" 1
    [IntArray (IArray uint8 tens_with_dead_pixel)]
  = (Raise (ValueError "cannot convert float NaN to integer"),
     [IntArray (IArray uint8 tens_with_dead_pixel);
      IntArray (IArray uint8 tens_with_dead_pixel)]).
Proof. vm_compute; reflexivity. Qed.

(** ** Where the casts of [correct_background] are exact *)

Lemma stretch_same {A} (l : list A) : stretch (length l) l = l.
Proof. by destruct l as [| x [| y l]]. Qed.

Lemma map_stretch_rect {A} (rows : list (list A)) :
  rect rows -> map (stretch (ncols rows)) rows = rows.
Proof.
  unfold rect. generalize (ncols rows). intros n H.
  induction H as [| r rows Hr _ IH]; cbn; [done |].
  by rewrite IH, <- Hr, stretch_same.
Qed.

(** Arrays of one shape are subtracted pixel by pixel. *)
Lemma np_subtract_same_shape t x y :
  rect x -> rect y -> nrows x = nrows y -> ncols x = ncols y ->
  np_subtract t x y = Ok (zip2d (fun p q => wrap t (p - q)) x y).
Proof.
  intros Hx Hy Hr Hc. unfold np_subtract, broadcast_len.
  rewrite <- Hr, <- Hc, !Nat.eqb_refl.
  rewrite (map_stretch_rect x Hx). rewrite Hc, (map_stretch_rect y Hy).
  unfold nrows in *. by rewrite stretch_same, Hr, stretch_same.
Qed.

Lemma map2d_rect {A B} (f : A -> B) rows : rect rows -> rect (map2d f rows).
Proof.
  unfold rect, map2d. intros H.
  replace (ncols (map (map f) rows)) with (ncols rows)
    by (destruct rows; cbn; by rewrite ?length_map).
  apply Forall_map. eapply Forall_impl; [exact H |].
  cbn. intros r Hr. by rewrite length_map.
Qed.

Lemma map2d_ncols {A B} (f : A -> B) rows : ncols (map2d f rows) = ncols rows.
Proof. destruct rows; cbn; by rewrite ?length_map. Qed.

Lemma map2d_nrows {A B} (f : A -> B) rows : nrows (map2d f rows) = nrows rows.
Proof. apply length_map. Qed.

Lemma zip2d_map2d {A B C D E} (f : C -> D -> E) (g : A -> C) (h : B -> D) x y :
  zip2d f (map2d g x) (map2d h y) = zip2d (fun p q => f (g p) (h q)) x y.
Proof.
  unfold zip2d, map2d. revert y. induction x as [| r x IH]; intros [| s y];
    cbn; [done.. |].
  f_equal; [| apply IH].
  revert s. induction r as [| p r IHr]; intros [| q s]; cbn; [done.. |].
  by rewrite IHr.
Qed.

Lemma zip2d_ext_Forall {A B C} (f g : A -> B -> C) (P : A -> Prop) (Q : B -> Prop) x y :
  (forall p q, P p -> Q q -> f p q = g p q) ->
  Forall (Forall P) x -> Forall (Forall Q) y ->
  zip2d f x y = zip2d g x y.
Proof.
  intros Hfg Hx. unfold zip2d. revert y.
  induction Hx as [| r x Hr _ IH]; intros y Hy; [done |].
  destruct Hy as [| s y Hs Hy]; [done |]. cbn. f_equal; [| by apply IH].
  clear IH. revert s Hs. induction Hr as [| p r Hp _ IHr]; intros s Hs; [done |].
  destruct Hs as [| q s Hq Hs]; [done |]. cbn. f_equal; [by apply Hfg | by apply IHr].
Qed.

Lemma zip2d_zeros {A B} (f : A -> Z -> B) (x : list (list A)) :
  zip2d f x (map2d (fun _ => 0) x) = map2d (fun p => f p 0) x.
Proof.
  unfold zip2d, map2d. induction x as [| r x IH]; cbn; [done |].
  f_equal; [| exact IH]. induction r as [| p r IHr]; cbn; [done |].
  by rewrite IHr.
Qed.

(** The [int16] of the dynamic path holds every difference of two 8-bit
    arrays of one shape: the subtraction is exact. *)
Theorem subtract_as_int16_exact pattern bg :
  idt pattern = uint8 -> idt bg = uint8 ->
  in_dtype pattern -> in_dtype bg ->
  rect (irows pattern) -> rect (irows bg) ->
  nrows (irows pattern) = nrows (irows bg) ->
  ncols (irows pattern) = ncols (irows bg) ->
  subtract_as int16 pattern bg
  = Ok (IArray int16 (zip2d Z.sub (irows pattern) (irows bg))).
Proof.
  intros Hp Hb Hwp Hwb Hrp Hrb Hnr Hnc. unfold subtract_as, astype, in_dtype in *.
  rewrite Hp in Hwp. rewrite Hb in Hwb. cbn [irows].
  rewrite np_subtract_same_shape;
    [| by apply map2d_rect | by apply map2d_rect
     | by rewrite !map2d_nrows | by rewrite !map2d_ncols].
  cbn [mbind result_bind]. f_equal. f_equal. rewrite zip2d_map2d.
  eapply zip2d_ext_Forall; [| exact Hwp | exact Hwb].
  cbn beta. intros p q Hp' Hq'. apply in_range_bounds in Hp', Hq'.
  cbv [iinfo_min iinfo_max signed iwidth bits] in Hp', Hq'.
  change (2 ^ 8) with 256 in *.
  assert (forall z, -255 <= z <= 255 -> wrap int16 z = z) as H16.
  { intros z Hz. apply wrap_in_range, in_range_bounds.
    cbv [iinfo_min iinfo_max signed iwidth bits].
    change (2 ^ (16 - 1)) with 32768. lia. }
  rewrite (H16 p), (H16 q) by lia. apply H16. lia.
Qed.

Lemma subtract_as_int16_exact_witness :
  subtract_as int16 (IArray uint8 [[200; 0]]) (IArray uint8 [[0; 255]])
  = Ok (IArray int16 (zip2d Z.sub [[200; 0]] [[0; 255]])).
Proof.
  apply subtract_as_int16_exact; try reflexivity; repeat constructor.
Defined.

(** On a pattern whose pixels fit seven bits the [int8] of the static path
    loses nothing: with an all-zero background of the pattern's shape,
    [imin = 0] and [scale = 1.0], static correction is the plain rescale, on
    every platform. *)
Theorem static_zero_background_7bit cu blur pattern sigma :
  rect (irows pattern) ->
  Forall (Forall (fun p => 0 <= p <= 127)) (irows pattern) ->
  correct_background cu blur pattern true false
    (IArray (idt pattern) (map2d (fun _ => 0) (irows pattern)))
    sigma (Some 0) (Some (Z2F 1))
  = rescale_pattern_intensity cu pattern (Some 0) (Some (Z2F 1)) (DInt uint8).
Proof.
  intros Hrect H7. unfold correct_background, subtract_as, astype. cbn [irows].
  rewrite np_subtract_same_shape;
    [| by apply map2d_rect | by do 2 apply map2d_rect
     | by rewrite !map2d_nrows | by rewrite !map2d_ncols].
  cbn [mbind result_bind]. rewrite zip2d_map2d, zip2d_zeros.
  assert (forall t, map2d (fun p => wrap t (p - 0)) (irows pattern) = irows pattern)
    as Hid.
  { intros t. rewrite <- (map_id (irows pattern)) at 2.
    unfold map2d. apply Forall_fmap_ext_1. eapply Forall_impl; [exact H7 |].
    cbn beta. intros r Hr. rewrite <- (map_id r) at 2.
    apply Forall_fmap_ext_1. eapply Forall_impl; [exact Hr |].
    cbn beta. intros p Hp. rewrite Z.sub_0_r. apply wrap_in_range, in_range_bounds.
    destruct t as [[] []]; cbv [iinfo_min iinfo_max signed iwidth bits]; lia. }
  assert (map2d (fun p => wrap int8 (wrap int8 p - wrap int8 0)) (irows pattern)
          = irows pattern) as Hid8.
  { rewrite <- (Hid int8) at 2. apply map2d_ext_in. intros p Hp.
    assert (0 <= p <= 127) as Hp7.
    { apply list_elem_of_In, in_concat in Hp as (r & Hr & Hpr).
      apply list_elem_of_In in Hr, Hpr.
      rewrite Forall_forall in H7. specialize (H7 r Hr).
      rewrite Forall_forall in H7. by apply H7. }
    rewrite (wrap_in_range int8 p); [done |].
    apply in_range_bounds. cbv [iinfo_min iinfo_max signed iwidth bits]. lia. }
  rewrite Hid8. unfold rescale_pattern_intensity. cbn [signed option_map mbind result_bind].
  unfold np_subtract_scalar. cbn [idt irows].
  replace (result_type int8 0) with (Some (Some int8)) by reflexivity.
  replace (result_type (idt pattern) 0) with (Some (Some (idt pattern)))
    by (by destruct (idt pattern) as [[] []]).
  cbn [mbind result_bind np_multiply_float irows]. by rewrite !Hid.
Qed.

Lemma static_zero_background_7bit_witness :
  correct_background cast_saturating no_blur (IArray uint8 [[100; 3]; [0; 127]])
    true false (IArray uint8 [[0; 0]; [0; 0]]) (Z2F 1) (Some 0) (Some (Z2F 1))
  = rescale_pattern_intensity cast_saturating (IArray uint8 [[100; 3]; [0; 127]])
      (Some 0) (Some (Z2F 1)) (DInt uint8).
Proof.
  apply (static_zero_background_7bit cast_saturating no_blur
           (IArray uint8 [[100; 3]; [0; 127]]) (Z2F 1)).
  - repeat constructor.
  - repeat constructor; lia.
Defined.

(** * Further properties *)

(** ** [rescale_pattern_intensity]: arguments and empty patterns *)

Lemma min_width_unsigned v : 0 <= v < 2 ^ 64 -> is_Some (min_width false v).
Proof.
  intros Hv. unfold min_width.
  repeat (case_match; [eauto |]).
  match goal with H : in_range uint64 v = false |- _ =>
    apply not_true_iff_false in H; exfalso; apply H end.
  apply in_range_bounds. cbv [iinfo_min iinfo_max signed iwidth bits]. lia.
Qed.

Lemma min_width_signed v : - 2 ^ 63 <= v < 0 -> is_Some (min_width true v).
Proof.
  intros Hv. unfold min_width.
  repeat (case_match; [eauto |]).
  match goal with H : in_range int64 v = false |- _ =>
    apply not_true_iff_false in H; exfalso; apply H end.
  apply in_range_bounds. cbv [iinfo_min iinfo_max signed iwidth bits].
  change (2 ^ (64 - 1)) with (2 ^ 63). lia.
Qed.

(** A Python int that fits a NumPy integer is subtracted without error. *)
Lemma np_subtract_scalar_pyint_ok a v :
  - 2 ^ 63 <= v < 2 ^ 64 -> exists s, np_subtract_scalar a (PyInt v) = Ok s.
Proof.
  intros Hv. unfold np_subtract_scalar, result_type, scalar_type.
  destruct (v <? 0) eqn:E.
  - apply Z.ltb_lt in E. destruct (min_width_signed v ltac:(lia)) as [w ->].
    cbn. destruct (promote_types _ _); eauto.
  - apply Z.ltb_ge in E. destruct (min_width_unsigned v ltac:(lia)) as [w ->].
    destruct (signed (idt a) && in_range (IDtype true w) v); cbn;
      destruct (promote_types _ _); eauto.
Qed.



Lemma np_subtract_scalar_shape a imin s :
  np_subtract_scalar a imin = Ok s ->
  Forall2 (fun r r' => length r' = length r) (irows a)
    (np_multiply_float s (S754_zero false)).
Proof.
  unfold np_subtract_scalar.
  destruct imin as [v | v]; [| destruct (result_type (idt a) v) as [[t |] |]];
    intros [= <-]; cbn [np_multiply_float irows]; rewrite ?map2d_map2d;
    apply map2d_shape.
Qed.

Lemma np_multiply_float_shape s x y :
  Forall2 (fun r r' => length r' = length r)
    (np_multiply_float s x) (np_multiply_float s y).
Proof.
  destruct s as [a | rows]; cbn [np_multiply_float].
  - generalize (irows a). intros rows.
    unfold map2d. induction rows; cbn; constructor; [by rewrite !length_map | done].
  - unfold map2d. induction rows; cbn; constructor; [by rewrite !length_map | done].
Qed.

(** An array that the call returns has the shape of the pattern, in either
    mode. *)
Theorem rescale_keeps_shape cu pattern imin scale dtype_out out :
  rescale_pattern_intensity cu pattern imin scale dtype_out = Ok out ->
  Forall2 (fun r r' => length r' = length r) (irows pattern) (irows out).
Proof.
  unfold rescale_pattern_intensity.
  destruct dtype_out as [| [[] w] | | |]; try discriminate.
  destruct (match imin, scale with
            | None, None => _
            | _, _ => _
            end) as [[imin' scale'] | e]; [| discriminate].
  cbn [mbind result_bind].
  destruct imin' as [imin' |]; [| discriminate].
  destruct (np_subtract_scalar pattern imin') as [shifted | e] eqn:Es;
    [| discriminate].
  cbn [mbind result_bind]. destruct scale' as [scale' |]; [| discriminate].
  intros [= <-]. cbn [irows].
  pose proof (np_subtract_scalar_shape _ _ _ Es) as H1.
  pose proof (np_multiply_float_shape shifted (S754_zero false) scale') as H2.
  pose proof (proj2 (map2d_shape (float_to_int cu (IDtype false w))
                       (np_multiply_float shifted scale'))) as H3.
  clear Es. revert H2 H3.
  generalize (map2d (float_to_int cu (IDtype false w))
                (np_multiply_float shifted scale')).
  generalize (np_multiply_float shifted scale').
  revert H1. generalize (np_multiply_float shifted (S754_zero false)).
  generalize (irows pattern). clear.
  intros l1 l2 H1. induction H1 as [| r1 r2 l1 l2 Hr _ IH];
    intros l3 l4 H2 H3; inversion H2; subst; inversion H3; subst;
    constructor; [congruence | eauto].
Qed.

Lemma rescale_keeps_shape_witness :
  Forall2 (fun r r' => length r' = length r)
    [[200; 5; 7]; [10; 255; 0]] [[190; 251; 253]; [0; 245; 246]].
Proof.
  exact (rescale_keeps_shape cast_modular
           (IArray uint8 [[200; 5; 7]; [10; 255; 0]]) (Some 10) (Some (Z2F 1))
           (DInt uint8) (IArray uint8 [[190; 251; 253]; [0; 245; 246]])
           ltac:(vm_compute; reflexivity)).
Defined.

(** On a zero-size pattern the automatic mode raises, because the pattern
    has no minimum, while the explicit mode returns a zero-size array. *)
Theorem rescale_zero_size_pattern cu pattern t_out :
  signed t_out = false -> concat (irows pattern) = [] ->
  rescale_pattern_intensity cu pattern None None (DInt t_out)
  = Raise (ValueError
      "zero-size array to reduction operation minimum which has no identity")
  /\ (forall imin scale, - 2 ^ 63 <= imin < 2 ^ 64 ->
        exists out,
          rescale_pattern_intensity cu pattern (Some imin) (Some scale) (DInt t_out)
          = Ok out /\
          idt out = t_out /\ concat (irows out) = [] /\
          nrows (irows out) = nrows (irows pattern)).
Proof.
  intros Ho He. unfold rescale_pattern_intensity. rewrite Ho.
  split; [unfold np_min; by rewrite He |].
  intros imin scale Hi. cbn [option_map mbind result_bind].
  destruct (np_subtract_scalar_pyint_ok pattern imin Hi) as [s Hs].
  rewrite Hs. cbn [mbind result_bind]. eexists. split; [done |].
  cbn [idt irows]. split; [done |].
  pose proof (np_subtract_scalar_shape _ _ _ Hs) as H1.
  pose proof (np_multiply_float_shape s (S754_zero false) scale) as H2.
  assert (forall (A B : Type) (x : list (list A)) (y : list (list B)),
             Forall2 (fun r r' => length r' = length r) x y ->
             concat x = [] -> concat y = [] /\ length y = length x) as Hem.
  { clear. intros A B x y H. induction H as [| r r' x y Hr _ IH]; [done |].
    cbn. intros Hc. apply app_eq_nil in Hc as [-> Hc].
    destruct r'; [| done]. destruct (IH Hc) as [-> ->]. done. }
  destruct (Hem _ _ _ _ H1 He) as [He1 Hn1].
  destruct (Hem _ _ _ _ H2 He1) as [He2 Hn2].
  destruct (Hem _ _ _ _ (proj2 (map2d_shape (float_to_int cu t_out)
                                  (np_multiply_float s scale))) He2) as [He3 Hn3].
  unfold nrows. split; [done | congruence].
Qed.

Lemma rescale_zero_size_pattern_witness :
  rescale_pattern_intensity cast_modular (IArray uint16 [[]; []]) None None
    (DInt uint8)
  = Raise (ValueError
      "zero-size array to reduction operation minimum which has no identity")
  /\ exists out,
       rescale_pattern_intensity cast_modular (IArray uint16 [[]; []])
         (Some 3) (Some (Z2F 2)) (DInt uint8) = Ok out /\
       idt out = uint8 /\ concat (irows out) = [] /\ nrows (irows out) = 2%nat.
Proof.
  destruct (rescale_zero_size_pattern cast_modular (IArray uint16 [[]; []])
              uint8 eq_refl eq_refl) as [H1 H2].
  split; [exact H1 | apply H2; lia].
Defined.

(** ** [rescale_pattern_intensity] on 8-bit and 16-bit data *)

Lemma all_below_spec n f z :
  all_below n f = true -> 0 <= z < Z.of_nat n -> f z = true.
Proof.
  unfold all_below. rewrite forallb_forall. intros H Hz. apply H.
  apply in_map_iff. exists (Z.to_nat z). split; [lia |].
  apply in_seq. lia.
Qed.

Lemma unit_scale_table : all_below 256 unit_scale_ok = true.
Proof. vm_compute. reflexivity. Qed.

Lemma stretch8_table : all_below 255 (fun d => stretch8_ok (d + 1)) = true.
Proof. vm_compute. reflexivity. Qed.

Lemma unit_scale_exact p :
  0 <= p <= 255 -> trunc (fmul (Z2F p) (Z2F 1)) = Some p.
Proof.
  intros Hp. pose proof (all_below_spec _ _ p unit_scale_table ltac:(lia)) as H.
  unfold unit_scale_ok in H.
  destruct (trunc (fmul (Z2F p) (Z2F 1))) as [z |]; [| discriminate H].
  apply Z.eqb_eq in H. by subst.
Qed.

Lemma result_type_zero t : signed t = false -> result_type t 0 = Some (Some t).
Proof. by destruct t as [[] []]. Qed.

(** With [imin = 0] and [scale = 1.0] the rescale returns the pixels as they
    are, in the output dtype, for pixels up to 255: an 8-bit pattern comes
    back unchanged. *)
Theorem rescale_unit_scale cu pattern t_out :
  signed (idt pattern) = false -> signed t_out = false -> in_dtype pattern ->
  Forall (Forall (fun p => p <= 255)) (irows pattern) ->
  rescale_pattern_intensity cu pattern (Some 0) (Some (Z2F 1)) (DInt t_out)
  = Ok (IArray t_out (irows pattern)).
Proof.
  intros Hu Ho Hwf Hsmall. unfold rescale_pattern_intensity. rewrite Ho.
  cbn [option_map mbind result_bind]. unfold np_subtract_scalar.
  rewrite (result_type_zero _ Hu).
  cbn [mbind result_bind np_multiply_float irows]. rewrite !map2d_map2d.
  f_equal. f_equal. rewrite <- (map_id (irows pattern)) at 2.
  unfold map2d. unfold in_dtype in Hwf.
  apply Forall_fmap_ext_1, Forall_forall. intros r Hr.
  rewrite <- (map_id r) at 2. apply Forall_fmap_ext_1, Forall_forall.
  intros p Hp. cbn beta.
  rewrite Forall_forall in Hwf, Hsmall.
  pose proof (Hwf r Hr) as Hwr. pose proof (Hsmall r Hr) as Hsr.
  rewrite Forall_forall in Hwr, Hsr.
  pose proof (Hwr p Hp) as Hin. pose proof (Hsr p Hp) as Hle.
  rewrite Z.sub_0_r, (wrap_in_range _ _ Hin).
  apply in_range_bounds in Hin. unfold iinfo_min in Hin. rewrite Hu in Hin.
  unfold float_to_int. rewrite unit_scale_exact by lia.
  replace (in_range t_out p) with true; [done |].
  symmetry. apply in_range_bounds. destruct t_out as [s w]. cbn in Ho. subst s.
  destruct w; cbv [iinfo_min iinfo_max signed iwidth bits]; lia.
Qed.

Lemma rescale_unit_scale_witness :
  rescale_pattern_intensity cast_saturating (IArray uint8 [[0; 255]; [200; 7]])
    (Some 0) (Some (Z2F 1)) (DInt uint8)
  = Ok (IArray uint8 [[0; 255]; [200; 7]]).
Proof.
  apply (rescale_unit_scale cast_saturating (IArray uint8 [[0; 255]; [200; 7]])
           uint8 eq_refl eq_refl).
  - repeat constructor.
  - repeat constructor; lia.
Defined.

Lemma nondecreasing_spec l : forall prev,
  nondecreasing prev l = true ->
  (forall k o, l !! k = Some o -> exists x, o = Some x /\ prev <= x <= 255) /\
  (forall k x y, l !! k = Some (Some x) -> l !! S k = Some (Some y) -> x <= y).
Proof.
  induction l as [| o l IH]; intros prev H; [by split |].
  destruct o as [x |]; [| discriminate H]. cbn in H.
  apply andb_true_iff in H as [H H3]. apply andb_true_iff in H as [H1 H2].
  destruct (IH x H3) as [IH1 IH2]. split.
  - intros [| k] o Hk; cbn in Hk.
    + injection Hk as <-. exists x. split; [done | lia].
    + destruct (IH1 k o Hk) as (z & -> & Hz). exists z. split; [done | lia].
  - intros [| k] a b Ha Hb; cbn in Ha, Hb.
    + injection Ha as <-. destruct (IH1 0%nat _ Hb) as (z & [= <-] & Hz). lia.
    + by eapply IH2.
Qed.

Lemma stretch8_values_lookup D (k : nat) :
  (k <= Z.to_nat D)%nat ->
  stretch8_values D !! k = Some (stretch8 D (Z.of_nat k)).
Proof.
  intros Hk. unfold stretch8_values, stretch8. cbv zeta.
  rewrite list_lookup_fmap, lookup_seq_lt by lia. done.
Qed.

(** What the table says about one stretch. *)
Lemma stretch8_facts D k :
  1 <= D <= 255 -> 0 <= k <= D ->
  exists x,
    stretch8 D k = Some x /\ 0 <= x <= 255 /\
    (k = 0 -> x = 0) /\ (k = D -> 254 <= x) /\
    (k < D -> exists y, stretch8 D (k + 1) = Some y /\ x <= y).
Proof.
  intros HD Hk.
  pose proof (all_below_spec _ _ (D - 1) stretch8_table ltac:(lia)) as H.
  cbn beta in H. replace (D - 1 + 1) with D in H by lia.
  unfold stretch8_ok in H.
  destruct (stretch8_values D) as [| [[| |] |] vals] eqn:Ev; try discriminate H.
  rewrite <- Ev in H. apply andb_true_iff in H as [Hnd Hlast].
  destruct (nondecreasing_spec _ _ Hnd) as [Hrange Hadj].
  pose proof (stretch8_values_lookup D (Z.to_nat k) ltac:(lia)) as Hlk.
  rewrite Z2Nat.id in Hlk by lia.
  destruct (Hrange _ _ Hlk) as (x & Hx & Hxr).
  exists x. split; [done |]. split; [done |]. split; [| split].
  - intros ->. pose proof (stretch8_values_lookup D 0 ltac:(lia)) as H0.
    rewrite Ev in H0. cbn in H0. change (Z.of_nat 0) with 0 in H0. congruence.
  - intros ->. rewrite last_lookup in Hlast.
    replace (Init.Nat.pred (length (stretch8_values D))) with (Z.to_nat D)
      in Hlast
      by (unfold stretch8_values; cbv zeta; rewrite length_map, length_seq; lia).
    rewrite Hlk, Hx in Hlast. lia.
  - intros Hlt.
    pose proof (stretch8_values_lookup D (S (Z.to_nat k)) ltac:(lia)) as Hlk'.
    replace (Z.of_nat (S (Z.to_nat k))) with (k + 1) in Hlk' by lia.
    destruct (Hrange _ _ Hlk') as (y & Hy & _).
    exists y. split; [done |].
    rewrite Hx in Hlk. rewrite Hy in Hlk'. by eapply Hadj.
Qed.

Lemma stretch8_monotone D k k' :
  1 <= D <= 255 -> 0 <= k <= k' -> k' <= D ->
  exists x y, stretch8 D k = Some x /\ stretch8 D k' = Some y /\ x <= y.
Proof.
  intros HD Hk Hk'.
  assert (forall n : nat, k + Z.of_nat n <= D ->
            exists x y, stretch8 D k = Some x /\
                        stretch8 D (k + Z.of_nat n) = Some y /\ x <= y) as Hn.
  { induction n as [| n IH]; intros Hle.
    - destruct (stretch8_facts D k HD ltac:(lia)) as (x & Hx & _).
      exists x, x. rewrite Z.add_0_r. split; [done |]. split; [done | lia].
    - destruct (IH ltac:(lia)) as (x & y & Hx & Hy & Hxy).
      destruct (stretch8_facts D (k + Z.of_nat n) HD ltac:(lia))
        as (y' & Hy' & _ & _ & _ & Hstep).
      rewrite Hy in Hy'. injection Hy' as <-.
      destruct (Hstep ltac:(lia)) as (z & Hz & Hyz).
      exists x, z. split; [done |]. split; [| lia].
      rewrite <- Hz. f_equal. lia. }
  destruct (Hn (Z.to_nat (k' - k)) ltac:(lia)) as (x & y & Hx & Hy & Hxy).
  exists x, y. split; [done |]. split; [| done].
  rewrite <- Hy. f_equal. lia.
Qed.

Section Stretch8.

Variable cu : idtype -> float -> Z.
Variable pattern : iarray.
Hypothesis Hdt : idt pattern = uint8.
Hypothesis Hwf : in_dtype pattern.
Hypothesis Hnc : pixel_min pattern < pixel_max pattern.

Lemma nonconstant_nonempty : concat (irows pattern) <> [].
Proof.
  intros He. unfold pixel_min, pixel_max in Hnc. rewrite He in Hnc.
  cbn in Hnc. lia.
Qed.

Lemma byte_bounds p :
  p ∈ concat (irows pattern) ->
  0 <= pixel_min pattern <= p /\ p <= pixel_max pattern <= 255.
Proof.
  intros Hp. pose proof (pixel_bounds _ Hwf nonconstant_nonempty p Hp) as H.
  rewrite Hdt in H. cbv [iinfo_min iinfo_max signed iwidth bits] in H.
  change (2 ^ 8 - 1) with 255 in H. exact H.
Qed.

(** The output pixel of the input pixel [p]. *)
Lemma stretch8_pixel p :
  p ∈ concat (irows pattern) ->
  exists x,
    stretch8 (pixel_max pattern - pixel_min pattern) (p - pixel_min pattern)
    = Some x /\ 0 <= x <= 255 /\
    float_to_int cu uint8
      (fmul (Z2F (wrap (idt pattern) (p - pixel_min pattern)))
         (fdiv (Z2F (iinfo_max uint8))
            (Z2F (wrap (idt pattern) (pixel_max pattern - pixel_min pattern)))))
    = x.
Proof.
  intros Hp. destruct (byte_bounds p Hp) as [H1 H2].
  assert (signed (idt pattern) = false) as Hu by (by rewrite Hdt).
  rewrite (unsigned_divisor_exact _ Hwf nonconstant_nonempty Hu).
  rewrite (unsigned_shift_exact _ Hwf nonconstant_nonempty p Hu Hp).
  destruct (stretch8_facts (pixel_max pattern - pixel_min pattern)
              (p - pixel_min pattern) ltac:(lia) ltac:(lia))
    as (x & Hx & Hr & _).
  exists x. split; [done |]. split; [done |].
  unfold stretch8 in Hx. change (iinfo_max uint8) with 255.
  unfold float_to_int. rewrite Hx.
  replace (in_range uint8 x) with true; [done |].
  symmetry. apply in_range_bounds.
  cbv [iinfo_min iinfo_max signed iwidth bits]. change (2 ^ 8 - 1) with 255. lia.
Qed.

End Stretch8.

Lemma get2d_map2d {A B} (f : A -> B) rows r c :
  get2d (map2d f rows) r c = f <$> get2d rows r c.
Proof.
  unfold get2d, map2d. rewrite list_lookup_fmap.
  destruct (rows !! r) as [row |]; cbn; [apply list_lookup_fmap | done].
Qed.

Lemma get2d_concat {A} (rows : list (list A)) r c p :
  get2d rows r c = Some p -> p ∈ concat rows.
Proof.
  unfold get2d. destruct (rows !! r) as [row |] eqn:Er; cbn; [| discriminate].
  intros Hc. apply list_elem_of_In, in_concat. exists row.
  split; apply list_elem_of_In; eapply list_elem_of_lookup_2; eauto.
Qed.

Lemma concat_map2d {A B} (f : A -> B) rows :
  concat (map2d f rows) = map f (concat rows).
Proof. unfold map2d. by rewrite concat_map. Qed.

(** The least and the greatest value of an array of known bounds. *)
Lemma np_min_attained rows lo :
  lo ∈ concat rows -> Forall (fun z => lo <= z) (concat rows) ->
  np_min rows = Ok lo.
Proof.
  intros Hin Hle.
  destruct (np_min_spec rows) as (m & -> & Hm & Hall & _).
  { intros He. rewrite He in Hin. by apply elem_of_nil in Hin. }
  f_equal. rewrite Forall_forall in Hle, Hall.
  apply Z.le_antisymm; [by apply Hall | by apply Hle].
Qed.

Lemma np_max_between rows lo hi x :
  x ∈ concat rows -> lo <= x -> Forall (fun z => z <= hi) (concat rows) ->
  exists top, np_max rows = Ok top /\ lo <= top <= hi.
Proof.
  intros Hin Hlo Hle.
  destruct (np_max_spec rows) as (m & -> & Hm & Hall & _).
  { intros He. rewrite He in Hin. by apply elem_of_nil in Hin. }
  exists m. split; [done |]. rewrite Forall_forall in Hle, Hall.
  pose proof (Hall _ Hin). pose proof (Hle _ Hm). lia.
Qed.

(** On an 8-bit pattern that is not constant, the automatic mode to [uint8]
    fills the output range up to truncation: the darkest output pixel is 0
    and the brightest is 254 or 255. *)
Theorem rescale_auto_uint8_range cu pattern :
  idt pattern = uint8 -> in_dtype pattern ->
  pixel_min pattern < pixel_max pattern ->
  exists out top,
    rescale_pattern_intensity cu pattern None None (DInt uint8) = Ok out /\
    np_min (irows out) = Ok 0 /\
    np_max (irows out) = Ok top /\ 254 <= top <= 255.
Proof.
  intros Hdt Hwf Hnc.
  pose proof (nonconstant_nonempty pattern Hnc) as Hne.
  rewrite (rescale_auto_unfold _ Hne).
  set (f := fun p => float_to_int cu uint8 _).
  assert (forall p, p ∈ concat (irows pattern) ->
            exists x, stretch8 (pixel_max pattern - pixel_min pattern)
                        (p - pixel_min pattern) = Some x /\
                      0 <= x <= 255 /\ f p = x) as Hf.
  { intros p Hp. exact (stretch8_pixel cu pattern Hdt Hwf Hnc p Hp). }
  destruct (np_min_spec _ Hne) as (m & _ & Hm & _ & Hmeq).
  destruct (np_max_spec _ Hne) as (M & _ & HM & _ & HMeq).
  fold (pixel_min pattern) in Hmeq. fold (pixel_max pattern) in HMeq. subst m M.
  assert (Forall (fun z => 0 <= z <= 255) (concat (map2d f (irows pattern))))
    as Hall.
  { rewrite concat_map2d. apply Forall_map, Forall_forall. intros p Hp.
    destruct (Hf p Hp) as (x & _ & Hx & <-). exact Hx. }
  assert (f (pixel_min pattern) = 0) as Hlo.
  { destruct (Hf _ Hm) as (x & Hs & _ & <-).
    destruct (byte_bounds pattern Hdt Hwf Hnc _ Hm) as [Hb1 Hb2].
    destruct (stretch8_facts (pixel_max pattern - pixel_min pattern)
                (pixel_min pattern - pixel_min pattern) ltac:(lia) ltac:(lia))
      as (x' & Hs' & _ & Hzero & _).
    rewrite Hs in Hs'. injection Hs' as <-. apply Hzero. lia. }
  assert (254 <= f (pixel_max pattern)) as Hhi.
  { destruct (Hf _ HM) as (x & Hs & _ & <-).
    destruct (byte_bounds pattern Hdt Hwf Hnc _ HM) as [Hb1 Hb2].
    destruct (stretch8_facts (pixel_max pattern - pixel_min pattern)
                (pixel_max pattern - pixel_min pattern) ltac:(lia) ltac:(lia))
      as (x' & Hs' & _ & _ & HD & _).
    rewrite Hs in Hs'. injection Hs' as <-. by apply HD. }
  destruct (np_max_between (map2d f (irows pattern)) 254 255
              (f (pixel_max pattern))) as (top & Htop & Hb).
  { rewrite concat_map2d. apply list_elem_of_fmap. by exists (pixel_max pattern). }
  { exact Hhi. }
  { eapply Forall_impl; [exact Hall |]. cbn beta. intros; lia. }
  eexists _, top. split; [done |]. cbn [irows]. split; [| done].
  apply np_min_attained.
  - rewrite concat_map2d, <- Hlo. apply list_elem_of_fmap.
    by exists (pixel_min pattern).
  - eapply Forall_impl; [exact Hall |]. cbn beta. intros; lia.
Qed.

Lemma rescale_auto_uint8_range_witness :
  exists out top,
    rescale_pattern_intensity cast_modular (IArray uint8 [[5; 30]; [17; 9]])
      None None (DInt uint8) = Ok out /\
    np_min (irows out) = Ok 0 /\
    np_max (irows out) = Ok top /\ 254 <= top <= 255.
Proof.
  apply (rescale_auto_uint8_range cast_modular (IArray uint8 [[5; 30]; [17; 9]])
           eq_refl).
  - repeat constructor.
  - vm_compute. reflexivity.
Defined.

(** The brightest pixel does not always reach 255: with [max - min = 25] the
    product [25 * (255 / 25)] is just below 255 and is truncated to 254. *)
Lemma rescale_auto_uint8_top_254 :
  rescale_pattern_intensity cast_modular (IArray uint8 [[5; 30]; [17; 9]])
    None None (DInt uint8)
  = Ok (IArray uint8 [[0; 254]; [122; 40]]).
Proof. vm_compute. reflexivity. Qed.

(** On an 8-bit pattern that is not constant, the automatic mode to [uint8]
    keeps the order of the pixels: a pixel that is not brighter than another
    in the input is not brighter than it in the output. *)
Theorem rescale_auto_uint8_monotone cu pattern r c r' c' p q :
  idt pattern = uint8 -> in_dtype pattern ->
  pixel_min pattern < pixel_max pattern ->
  get2d (irows pattern) r c = Some p ->
  get2d (irows pattern) r' c' = Some q ->
  p <= q ->
  exists out x y,
    rescale_pattern_intensity cu pattern None None (DInt uint8) = Ok out /\
    get2d (irows out) r c = Some x /\
    get2d (irows out) r' c' = Some y /\
    x <= y.
Proof.
  intros Hdt Hwf Hnc Hp Hq Hpq.
  pose proof (nonconstant_nonempty pattern Hnc) as Hne.
  rewrite (rescale_auto_unfold _ Hne).
  pose proof (get2d_concat _ _ _ _ Hp) as Hpin.
  pose proof (get2d_concat _ _ _ _ Hq) as Hqin.
  destruct (stretch8_pixel cu pattern Hdt Hwf Hnc p Hpin) as (x & Hx & _ & Hfx).
  destruct (stretch8_pixel cu pattern Hdt Hwf Hnc q Hqin) as (y & Hy & _ & Hfy).
  destruct (byte_bounds pattern Hdt Hwf Hnc _ Hpin) as [Hp1 Hp2].
  destruct (byte_bounds pattern Hdt Hwf Hnc _ Hqin) as [Hq1 Hq2].
  destruct (stretch8_monotone (pixel_max pattern - pixel_min pattern)
              (p - pixel_min pattern) (q - pixel_min pattern)
              ltac:(lia) ltac:(lia) ltac:(lia)) as (x' & y' & Hx' & Hy' & Hle).
  rewrite Hx in Hx'. rewrite Hy in Hy'. injection Hx' as <-. injection Hy' as <-.
  eexists _, x, y. split; [done |]. cbn [irows].
  rewrite !get2d_map2d, Hp, Hq. cbn [fmap option_fmap option_map].
  by rewrite Hfx, Hfy.
Qed.

Lemma rescale_auto_uint8_monotone_witness :
  exists out x y,
    rescale_pattern_intensity cast_modular (IArray uint8 [[5; 30]; [17; 9]])
      None None (DInt uint8) = Ok out /\
    get2d (irows out) 1 1 = Some x /\
    get2d (irows out) 1 0 = Some y /\
    x <= y.
Proof.
  apply (rescale_auto_uint8_monotone cast_modular
           (IArray uint8 [[5; 30]; [17; 9]]) 1 1 1 0 9 17 eq_refl).
  - repeat constructor.
  - vm_compute. reflexivity.
  - reflexivity.
  - reflexivity.
  - lia.
Defined.

(** ** The dynamic path of [correct_background] *)

Lemma rect_same_shape {A B} (x : list (list A)) (y : list (list B)) :
  rect x -> rect y -> nrows x = nrows y -> ncols x = ncols y -> same_shape x y.
Proof.
  unfold rect, same_shape, nrows. generalize (ncols x) (ncols y).
  intros n m Hx Hy Hr ->. revert y Hy Hr.
  induction Hx as [| r x Hr _ IH]; intros [| s y] Hy Hlen; try discriminate;
    [constructor |].
  apply Forall_cons in Hy as [Hs Hy]. constructor; [congruence |].
  apply IH; [done |]. by injection Hlen.
Qed.

Lemma zip2d_nonempty {A B C} (f : A -> B -> C) x y :
  same_shape x y -> concat x <> [] -> concat (zip2d f x y) <> [].
Proof.
  unfold zip2d. induction 1 as [| r s x y Hrs _ IH]; cbn; [done |].
  intros Hne Hz. apply app_eq_nil in Hz as [Hz1 Hz2].
  destruct r as [| p r].
  - cbn in Hne. by apply IH.
  - destruct s; [discriminate Hrs | discriminate Hz1].
Qed.

Lemma zip2d_sub_bytes x y :
  Forall (Forall (fun p => 0 <= p <= 255)) x ->
  Forall (Forall (fun p => 0 <= p <= 255)) y ->
  Forall (Forall (fun z => -255 <= z <= 255)) (zip2d Z.sub x y).
Proof.
  unfold zip2d. intros Hx. revert y.
  induction Hx as [| r x Hr _ IH]; intros y Hy; [constructor |].
  destruct Hy as [| s y Hs Hy]; [constructor |]. cbn. constructor; [| by apply IH].
  clear IH. revert s Hs. induction Hr as [| p r Hp _ IHr]; intros s Hs;
    [constructor |].
  destruct Hs as [| q s Hq Hs]; [constructor |]. cbn.
  constructor; [lia | by apply IHr].
Qed.

Lemma in_dtype_bytes a :
  idt a = uint8 -> in_dtype a -> Forall (Forall (fun p => 0 <= p <= 255)) (irows a).
Proof.
  unfold in_dtype. intros ->. intros H. eapply Forall_impl; [exact H |].
  cbn beta. intros r Hr. eapply Forall_impl; [exact Hr |]. cbn beta.
  intros p Hp. apply in_range_bounds in Hp.
  cbv [iinfo_min iinfo_max signed iwidth bits] in Hp.
  change (2 ^ 8 - 1) with 255 in Hp. exact Hp.
Qed.

Lemma wrap_int16_small z : -32768 <= z <= 32767 -> wrap int16 z = z.
Proof.
  intros Hz. apply wrap_in_range, in_range_bounds.
  cbv [iinfo_min iinfo_max signed iwidth bits].
  change (2 ^ (16 - 1)) with 32768. lia.
Qed.

(** The differences of two 8-bit arrays of one shape, as [int16]. *)
Lemma subtract_bytes_int16 pattern bg :
  idt pattern = uint8 -> idt bg = uint8 ->
  in_dtype pattern -> in_dtype bg ->
  rect (irows pattern) -> rect (irows bg) ->
  nrows (irows pattern) = nrows (irows bg) ->
  ncols (irows pattern) = ncols (irows bg) ->
  subtract_as int16 pattern bg
  = Ok (IArray int16 (zip2d Z.sub (irows pattern) (irows bg))).
Proof.
  intros Hp Hb Hwp Hwb Hrp Hrb Hnr Hnc.
  pose proof (in_dtype_bytes _ Hp Hwp) as Hbp.
  pose proof (in_dtype_bytes _ Hb Hwb) as Hbb.
  unfold subtract_as, astype. cbn [irows].
  rewrite np_subtract_same_shape;
    [| by apply map2d_rect | by apply map2d_rect
     | by rewrite !map2d_nrows | by rewrite !map2d_ncols].
  cbn [mbind result_bind]. f_equal. f_equal. rewrite zip2d_map2d.
  eapply zip2d_ext_Forall; [| exact Hbp | exact Hbb].
  cbn beta. intros p q Hp' Hq'.
  rewrite (wrap_int16_small p), (wrap_int16_small q) by lia.
  apply wrap_int16_small. lia.
Qed.

(** Bounds on the pixels bound their minimum and maximum. *)
Lemma pixel_min_max_bounds a lo hi p :
  Forall (Forall (fun z => lo <= z <= hi)) (irows a) ->
  p ∈ concat (irows a) ->
  lo <= pixel_min a <= p /\ p <= pixel_max a <= hi.
Proof.
  intros Hb Hp.
  assert (concat (irows a) <> []) as Hne.
  { intros He. rewrite He in Hp. by apply elem_of_nil in Hp. }
  assert (Forall (fun z => lo <= z <= hi) (concat (irows a))) as Hall.
  { clear Hp Hne. induction Hb; cbn; [constructor | by apply Forall_app]. }
  destruct (np_min_spec _ Hne) as (m & _ & Hin & Hle & Hm).
  destruct (np_max_spec _ Hne) as (M & _ & Hin' & Hle' & HM).
  fold (pixel_min a) in Hm. fold (pixel_max a) in HM. subst m M.
  rewrite Forall_forall in Hle, Hle', Hall.
  pose proof (Hall _ Hin). pose proof (Hall _ Hin').
  pose proof (Hle _ Hp). pose proof (Hle' _ Hp). lia.
Qed.

Lemma small_in_dtype_int16 rows :
  Forall (Forall (fun z => -255 <= z <= 255)) rows -> in_dtype (IArray int16 rows).
Proof.
  unfold in_dtype. cbn [idt irows]. intros H. eapply Forall_impl; [exact H |].
  cbn beta. intros r Hr. eapply Forall_impl; [exact Hr |]. cbn beta.
  intros z Hz. apply in_range_bounds.
  cbv [iinfo_min iinfo_max signed iwidth bits].
  change (2 ^ (16 - 1)) with 32768. lia.
Qed.

(** The dynamic path alone on 8-bit data, when the blur returns an 8-bit
    array of the pattern's shape: the differences and the rescale are exact
    integer arithmetic up to the float product. *)
Lemma dynamic_only_unfold cu blur pattern bg sigma imin scale :
  idt pattern = uint8 -> idt (blur pattern sigma) = uint8 ->
  in_dtype pattern -> in_dtype (blur pattern sigma) ->
  rect (irows pattern) -> rect (irows (blur pattern sigma)) ->
  nrows (irows pattern) = nrows (irows (blur pattern sigma)) ->
  ncols (irows pattern) = ncols (irows (blur pattern sigma)) ->
  concat (irows pattern) <> [] ->
  correct_background cu blur pattern false true bg sigma imin scale
  = Ok (spec_rescale_auto cu
          (IArray int16 (zip2d Z.sub (irows pattern) (irows (blur pattern sigma))))
          uint8).
Proof.
  intros Hp Hb Hwp Hwb Hrp Hrb Hnr Hnc Hne.
  unfold correct_background. cbn [mbind result_bind].
  rewrite (subtract_bytes_int16 _ _ Hp Hb Hwp Hwb Hrp Hrb Hnr Hnc).
  cbn [mbind result_bind].
  set (diff := zip2d Z.sub (irows pattern) (irows (blur pattern sigma))).
  assert (Forall (Forall (fun z => -255 <= z <= 255)) diff) as Hsmall.
  { apply zip2d_sub_bytes; by apply in_dtype_bytes. }
  assert (concat (irows (IArray int16 diff)) <> []) as Hdne.
  { cbn [irows]. apply zip2d_nonempty; [by apply rect_same_shape | done]. }
  rewrite (rescale_auto_unfold _ Hdne).
  destruct (np_min_spec _ Hdne) as (m & _ & Hm & _ & Hmeq).
  fold (pixel_min (IArray int16 diff)) in Hmeq. subst m.
  destruct (pixel_min_max_bounds (IArray int16 diff) (-255) 255 _ Hsmall Hm)
    as [Hlo Hhi].
  cbn [mbind result_bind].
  unfold spec_rescale_auto. f_equal. f_equal. cbn [idt irows].
  rewrite wrap_int16_small by lia.
  apply map2d_ext_in. intros p Hp'.
  destruct (pixel_min_max_bounds (IArray int16 diff) (-255) 255 p Hsmall Hp')
    as [H1 H2].
  by rewrite wrap_int16_small by lia.
Qed.

(** On 8-bit data, with a blur that returns an 8-bit array of the pattern's
    shape, the dynamic path alone is free of overflow: the result is the
    automatic rescale of the exact differences [pattern - blurred], whatever
    [bg], [imin] and [scale] are. *)
Theorem dynamic_correction_exact cu blur pattern bg sigma imin scale :
  idt pattern = uint8 -> idt (blur pattern sigma) = uint8 ->
  in_dtype pattern -> in_dtype (blur pattern sigma) ->
  rect (irows pattern) -> rect (irows (blur pattern sigma)) ->
  nrows (irows pattern) = nrows (irows (blur pattern sigma)) ->
  ncols (irows pattern) = ncols (irows (blur pattern sigma)) ->
  concat (irows pattern) <> [] ->
  correct_background cu blur pattern false true bg sigma imin scale
  = Ok (spec_rescale_auto cu
          (IArray int16 (zip2d Z.sub (irows pattern) (irows (blur pattern sigma))))
          uint8).
Proof. apply dynamic_only_unfold. Qed.

Lemma dynamic_correction_exact_witness :
  correct_background cast_modular (fun p _ => IArray uint8 [[100; 100]; [100; 100]])
    (IArray uint8 [[0; 255]; [100; 90]]) false true (IArray uint8 [])
    (Z2F 2) None None
  = Ok (IArray uint8 [[0; 255]; [100; 90]]).
Proof.
  rewrite (dynamic_correction_exact cast_modular
             (fun p _ => IArray uint8 [[100; 100]; [100; 100]])
             (IArray uint8 [[0; 255]; [100; 90]]) (IArray uint8 []) (Z2F 2)
             None None eq_refl eq_refl
             ltac:(repeat constructor) ltac:(repeat constructor)
             ltac:(repeat constructor) ltac:(repeat constructor)
             eq_refl eq_refl ltac:(discriminate)).
  vm_compute. reflexivity.
Defined.

(** Where the blur differs from the pattern by the same amount [c] at every
    pixel (by nothing, when it returns the pattern, as on a flat image), the
    differences are constant, the divisor of the automatic rescale is zero,
    and the dynamic path returns an array filled with what the platform
    stores for NaN. *)
Theorem dynamic_correction_flat cu blur pattern bg sigma imin scale c :
  idt pattern = uint8 -> idt (blur pattern sigma) = uint8 ->
  in_dtype pattern -> in_dtype (blur pattern sigma) ->
  rect (irows pattern) -> rect (irows (blur pattern sigma)) ->
  nrows (irows pattern) = nrows (irows (blur pattern sigma)) ->
  ncols (irows pattern) = ncols (irows (blur pattern sigma)) ->
  concat (irows pattern) <> [] ->
  zip2d Z.sub (irows pattern) (irows (blur pattern sigma))
  = map2d (fun _ => c) (irows pattern) ->
  correct_background cu blur pattern false true bg sigma imin scale
  = Ok (IArray uint8
          (map2d (fun _ => wrap uint8 (cu uint8 fnan)) (irows pattern))).
Proof.
  intros Hp Hb Hwp Hwb Hrp Hrb Hnr Hnc Hne Hflat.
  rewrite (dynamic_only_unfold cu blur pattern bg sigma imin scale)
    by assumption.
  rewrite Hflat. unfold spec_rescale_auto. cbn [irows]. f_equal. f_equal.
  set (flat := IArray int16 (map2d (fun _ => c) (irows pattern))).
  assert (Forall (Forall (fun z => c <= z <= c)) (irows flat)) as Hall.
  { cbn [flat irows]. unfold map2d. apply Forall_map, Forall_forall.
    intros r _. apply Forall_map, Forall_forall. intros p _. cbn beta. lia. }
  assert (forall p, p ∈ concat (irows flat) ->
            pixel_min flat = c /\ pixel_max flat = c /\ p = c) as Hc.
  { intros p Hp'. destruct (pixel_min_max_bounds flat c c p Hall Hp'). lia. }
  assert (c ∈ concat (irows flat)) as Hcin.
  { cbn [flat irows]. rewrite concat_map2d.
    destruct (concat (irows pattern)) as [| p ps]; [done |]. cbn. left. }
  destruct (Hc c Hcin) as (Hmin & Hmax & _). rewrite Hmin, Hmax.
  rewrite map2d_map2d. apply map2d_ext_in. intros p _.
  rewrite Z.sub_diag. change (iinfo_max uint8) with 255.
  replace (fdiv (Z2F 255) (Z2F 0)) with finf by reflexivity.
  by rewrite zero_times_inf.
Qed.

Lemma dynamic_correction_flat_witness :
  correct_background cast_modular no_blur (IArray uint8 [[9; 9]; [9; 9]])
    false true (IArray uint8 []) (Z2F 2) None None
  = Ok (IArray uint8 [[0; 0]; [0; 0]]).
Proof.
  exact (dynamic_correction_flat cast_modular no_blur
           (IArray uint8 [[9; 9]; [9; 9]]) (IArray uint8 []) (Z2F 2) None None 0
           eq_refl eq_refl
           ltac:(repeat constructor) ltac:(repeat constructor)
           ltac:(repeat constructor) ltac:(repeat constructor)
           eq_refl eq_refl ltac:(discriminate) eq_refl).
Defined.

(** ** [remove_dead]: bounds, frame and modes *)

Lemma result_bind_ok_inv {A B} (r : result A) (k : A -> result B) b :
  r ≫= k = Ok b -> exists a, r = Ok a /\ k a = Ok b.
Proof. destruct r as [a | e]; cbn; [eauto | discriminate]. Qed.

Lemma get2d_set2d_ne {A} (rows : list (list A)) r c v r' c' :
  (r', c') <> (r, c) -> get2d (set2d rows r c v) r' c' = get2d rows r' c'.
Proof.
  intros Hne. unfold get2d, set2d.
  destruct (decide (r = r')) as [<- | Hr].
  - rewrite list_lookup_alter_eq. destruct (rows !! r) as [row |]; cbn; [| done].
    apply list_lookup_insert_ne. congruence.
  - by rewrite list_lookup_alter_ne.
Qed.

(** An assignment that succeeds addresses a pixel of the array, keeps the
    dtype and the shape, and leaves every other pixel as it is. *)
Lemma assign_frame a i j v a' :
  assign a i j v = Ok a' ->
  exists r c,
    norm_index (fst (shape a)) i = Ok r /\ norm_index (snd (shape a)) j = Ok c /\
    array_dtype a' = array_dtype a /\ shape a' = shape a /\
    (forall r' c', (r', c') <> (r, c) -> pixel a' r' c' = pixel a r' c').
Proof.
  unfold assign. intros H.
  apply result_bind_ok_inv in H as (r & Hr & H).
  apply result_bind_ok_inv in H as (c & Hc & H).
  exists r, c. split; [done |]. split; [done |].
  destruct a as [a | rows].
  - apply result_bind_ok_inv in H as (z & _ & H).
    destruct (fits_c_integer (idt a) z); [| discriminate H].
    injection H as <-. cbn [array_dtype shape idt irows pixel].
    rewrite set2d_nrows, set2d_ncols. repeat split.
    intros r' c' Hne. by rewrite get2d_set2d_ne.
  - injection H as <-. cbn [array_dtype shape pixel].
    rewrite set2d_nrows, set2d_ncols. repeat split.
    intros r' c' Hne. by rewrite get2d_set2d_ne.
Qed.

Lemma listed_cons_false nr nc ij rest r c :
  listed nr nc (ij :: rest) r c = false ->
  listed nr nc rest r c = false /\
  forall r0 c0, norm_index nr (fst ij) = Ok r0 -> norm_index nc (snd ij) = Ok c0 ->
                (r, c) <> (r0, c0).
Proof.
  cbn [listed existsb]. intros H. apply orb_false_iff in H as [H1 H2].
  split; [exact H2 |]. intros r0 c0 Hr Hc [= -> ->].
  rewrite Hr, Hc, !Nat.eqb_refl in H1. discriminate H1.
Qed.

(** A loop of writes that succeeds. *)
Lemma run_writes_frame step :
  (forall cur ij cur', step cur ij = Ok cur' ->
     exists v, assign cur (fst ij) (snd ij) v = Ok cur') ->
  forall deadpixels cur out,
    run_writes step cur deadpixels = (Ok tt, out) ->
    array_dtype out = array_dtype cur /\ shape out = shape cur /\
    Forall (addressable (fst (shape cur)) (snd (shape cur))) deadpixels /\
    (forall r c,
        listed (fst (shape cur)) (snd (shape cur)) deadpixels r c = false ->
        pixel out r c = pixel cur r c).
Proof.
  intros Hstep. induction deadpixels as [| ij rest IH]; intros cur out Hrun.
  { injection Hrun as <-. repeat split. constructor. }
  cbn [run_writes] in Hrun.
  destruct (step cur ij) as [cur' | e] eqn:Es; [| discriminate Hrun].
  destruct (Hstep _ _ _ Es) as [v Hv].
  destruct (assign_frame _ _ _ _ _ Hv) as (r0 & c0 & Hr & Hc & Hdt & Hsh & Hfr).
  destruct (IH _ _ Hrun) as (Hdt' & Hsh' & Haddr & Hfr').
  rewrite Hsh in *. split; [congruence |]. split; [congruence |]. split.
  - constructor; [| done]. unfold addressable. by rewrite Hr, Hc.
  - intros r c Hl. apply listed_cons_false in Hl as [Hl Hne].
    rewrite (Hfr' _ _ Hl). apply Hfr. by apply Hne.
Qed.

Lemma average_step_assigns pat d cur ij cur' :
  average_step pat d cur ij = Ok cur' ->
  exists v, assign cur (fst ij) (snd ij) v = Ok cur'.
Proof.
  unfold average_step. intros H.
  apply result_bind_ok_inv in H as (ns & _ & H).
  apply result_bind_ok_inv in H as (v & _ & H). eauto.
Qed.

Lemma nan_step_assigns cur ij cur' :
  nan_step cur ij = Ok cur' -> exists v, assign cur (fst ij) (snd ij) v = Ok cur'.
Proof. unfold nan_step. eauto. Qed.

(** What a successful call implies, on the value of the input. *)
Lemma remove_dead_success (σ σ' : store) l l' deadpixels deadvalue d :
  remove_dead l deadpixels deadvalue d σ = (Ok l', σ') ->
  exists a out,
    σ !! l = Some a /\ l' = length σ /\ σ' = σ ++ [out] /\
    (deadvalue = "average"%string \/ deadvalue = "nan"%string) /\
    array_dtype out = array_dtype a /\ shape out = shape a /\
    Forall (addressable (fst (shape a)) (snd (shape a))) deadpixels /\
    (forall r c,
        listed (fst (shape a)) (snd (shape a)) deadpixels r c = false ->
        pixel out r c = pixel a r c).
Proof.
  intros Hrun. destruct (σ !! l) as [a |] eqn:Hl.
  2: { unfold remove_dead in Hrun. rewrite M_bind_run in Hrun.
       unfold np_copy in Hrun. rewrite M_bind_run in Hrun.
       unfold load in Hrun. rewrite Hl in Hrun. discriminate Hrun. }
  rewrite (remove_dead_run _ _ _ _ _ _ Hl) in Hrun.
  destruct (remove_dead_writes a deadpixels deadvalue d) as [res out] eqn:Ew.
  cbn [fst snd] in Hrun. destruct res as [[] | e]; [| discriminate Hrun].
  injection Hrun as <- <-. exists a, out.
  split; [done |]. split; [done |]. split; [done |].
  unfold remove_dead_writes in Ew.
  destruct (String.eqb_spec deadvalue "average") as [-> | _].
  { split; [by left |].
    exact (run_writes_frame _ (average_step_assigns a d) _ _ _ Ew). }
  destruct (String.eqb_spec deadvalue "nan") as [-> | _]; [| discriminate Ew].
  split; [by right |].
  exact (run_writes_frame _ nan_step_assigns _ _ _ Ew).
Qed.

(** A call succeeds only if every dead pixel addresses a pixel of the
    pattern (an index [i] with [-n <= i < n] on an axis of length [n]) and
    [deadvalue] is one of the two modes: a coordinate outside the pattern
    is never ignored or clipped. *)
Theorem remove_dead_success_in_bounds (σ σ' : store) l l' deadpixels deadvalue d :
  remove_dead l deadpixels deadvalue d σ = (Ok l', σ') ->
  exists a,
    σ !! l = Some a /\
    (deadvalue = "average"%string \/ deadvalue = "nan"%string) /\
    Forall (addressable (fst (shape a)) (snd (shape a))) deadpixels.
Proof.
  intros Hrun.
  destruct (remove_dead_success _ _ _ _ _ _ _ Hrun)
    as (a & out & Hl & _ & _ & Hdv & _ & _ & Haddr & _).
  exists a. done.
Qed.

Lemma remove_dead_success_in_bounds_witness :
  exists a,
    [FloatArray [[Z2F 1; Z2F 2]]] !! 0%nat = Some a /\
    ("nan" = "average" \/ "nan" = "nan")%string /\
    Forall (addressable (fst (shape a)) (snd (shape a))) [(0, 1); (-1, -2)].
Proof.
  exact (remove_dead_success_in_bounds
           [FloatArray [[Z2F 1; Z2F 2]]]
           [FloatArray [[Z2F 1; Z2F 2]]; FloatArray [[fnan; fnan]]]
           0%nat 1%nat [(0, 1); (-1, -2)] "nan" 1 eq_refl).
Defined.

(** The array a successful call returns has the dtype and the shape of the
    input, and every pixel that no dead pixel addresses holds the input's
    value, in both modes. *)
Theorem remove_dead_frame (σ σ' : store) l l' deadpixels deadvalue d :
  remove_dead l deadpixels deadvalue d σ = (Ok l', σ') ->
  exists a out,
    σ !! l = Some a /\ σ' !! l' = Some out /\
    array_dtype out = array_dtype a /\ shape out = shape a /\
    (forall r c,
        listed (fst (shape a)) (snd (shape a)) deadpixels r c = false ->
        pixel out r c = pixel a r c).
Proof.
  intros Hrun.
  destruct (remove_dead_success _ _ _ _ _ _ _ Hrun)
    as (a & out & Hl & -> & -> & _ & Hdt & Hsh & _ & Hfr).
  exists a, out. split; [done |].
  split; [by rewrite list_lookup_middle |]. done.
Qed.

Lemma remove_dead_frame_witness :
  exists a out,
    [IntArray (IArray uint8 tens_with_dead_pixel)] !! 0%nat = Some a /\
    [IntArray (IArray uint8 tens_with_dead_pixel); IntArray (IArray uint8 tens)]
      !! 1%nat = Some out /\
    array_dtype out = array_dtype a /\ shape out = shape a /\
    (forall r c,
        listed (fst (shape a)) (snd (shape a)) [(2, 2)] r c = false ->
        pixel out r c = pixel a r c).
Proof.
  exact (remove_dead_frame
           [IntArray (IArray uint8 tens_with_dead_pixel)]
           [IntArray (IArray uint8 tens_with_dead_pixel);
            IntArray (IArray uint8 tens)]
           0%nat 1%nat [(2, 2)] "average" 1 ltac:(vm_compute; reflexivity)).
Defined.

Lemma norm_index_not_ok n i :
  is_ok (norm_index n i) = false -> norm_index n i = Raise IndexError.
Proof. unfold norm_index. by repeat case_match. Qed.

(** On an integer pattern the "nan" mode never gets past the first dead
    pixel: NaN cannot be stored, so the write raises [ValueError] when the
    pixel addresses the pattern and [IndexError] when it does not; the copy,
    equal to the input, stays behind in the store. *)
Theorem remove_dead_nan_integer (σ : store) l a ij rest d :
  σ !! l = Some (IntArray a) ->
  (addressable (nrows (irows a)) (ncols (irows a)) ij ->
   remove_dead l (ij :: rest) "nan" d σ
   = (Raise (ValueError "cannot convert float NaN to integer"),
      σ ++ [IntArray a])) /\
  (~ addressable (nrows (irows a)) (ncols (irows a)) ij ->
   remove_dead l (ij :: rest) "nan" d σ = (Raise IndexError, σ ++ [IntArray a])).
Proof.
  intros Hl. rewrite (remove_dead_run _ _ _ _ _ _ Hl).
  unfold remove_dead_writes. cbn [String.eqb Ascii.eqb Bool.eqb].
  cbn [run_writes]. unfold nan_step, assign, addressable.
  cbn [shape fst snd].
  destruct (norm_index (nrows (irows a)) (fst ij)) as [r | e] eqn:Er.
  - destruct (norm_index (ncols (irows a)) (snd ij)) as [c | e] eqn:Ec.
    + split; [done |]. intros Hn. exfalso. apply Hn. done.
    + split; [intros [_ Hc]; discriminate Hc |]. intros _.
      rewrite (norm_index_not_ok _ _ ltac:(by rewrite Ec)) in Ec.
      by injection Ec as <-.
  - split; [intros [Hr _]; discriminate Hr |]. intros _.
    rewrite (norm_index_not_ok _ _ ltac:(by rewrite Er)) in Er.
    by injection Er as <-.
Qed.

Lemma remove_dead_nan_integer_witness :
  remove_dead 0%nat [(1, 0); (0, 0)] "nan" 1 [IntArray (IArray uint16 [[1; 2]; [3; 4]])]
  = (Raise (ValueError "cannot convert float NaN to integer"),
     [IntArray (IArray uint16 [[1; 2]; [3; 4]]);
      IntArray (IArray uint16 [[1; 2]; [3; 4]])]).
Proof.
  apply (remove_dead_nan_integer [IntArray (IArray uint16 [[1; 2]; [3; 4]])]
           0%nat (IArray uint16 [[1; 2]; [3; 4]]) (1, 0) [(0, 0)] 1 eq_refl).
  split; reflexivity.
Defined.

(** *** Slices *)

Lemma slice_wraps_to_empty {A} (l : list A) i d :
  0 <= i < d -> 2 * d + 1 <= Z.of_nat (length l) ->
  slice l (i - d) (i + d + 1) = [].
Proof.
  intros Hi Hn. unfold slice, slice_bound.
  destruct (i - d <? 0) eqn:E1; [| apply Z.ltb_ge in E1; lia].
  destruct (i + d + 1 <? 0) eqn:E2; [apply Z.ltb_lt in E2; lia |].
  replace (Z.to_nat (Z.min (i + d + 1) (Z.of_nat (length l)))
           - Z.to_nat (Z.max 0 (i - d + Z.of_nat (length l))))%nat
    with 0%nat by lia.
  done.
Qed.

Lemma concat_all_nil {A} (ls : list (list A)) :
  Forall (fun r => r = []) ls -> concat ls = [].
Proof. induction 1 as [| r ls -> _ IH]; cbn; [done | exact IH]. Qed.

Lemma slice_subset {A} (l : list A) s e x : x ∈ slice l s e -> x ∈ l.
Proof.
  unfold slice. intros H. eapply subseteq_drop, subseteq_take, H.
Qed.

Lemma window_wraps_to_empty {A} (rows : list (list A)) i j d :
  (0 <= i < d /\ 2 * d + 1 <= Z.of_nat (nrows rows)) \/
  (0 <= j < d /\ rect rows /\ 2 * d + 1 <= Z.of_nat (ncols rows)) ->
  concat (slice2d rows (i - d) (i + d + 1) (j - d) (j + d + 1)) = [].
Proof.
  unfold slice2d. intros [[Hi Hn] | (Hj & Hrect & Hn)].
  - by rewrite slice_wraps_to_empty.
  - apply concat_all_nil, Forall_map, Forall_forall. intros r Hr. cbn beta.
    apply slice_wraps_to_empty; [done |].
    apply slice_subset in Hr. unfold rect in Hrect.
    rewrite Forall_forall in Hrect. by rewrite (Hrect r Hr).
Qed.

(** In the "average" mode a dead pixel within [d] of the top edge or of the
    left edge of a pattern at least [2 d + 1] wide makes the call fail: the
    slice bound [i - d] is negative and counts from the end, the
    neighbourhood is empty, and [np.delete] raises [IndexError].  The
    window is not clipped at these two edges. *)
Theorem remove_dead_average_top_left_edge (σ : store) l a i j rest d :
  σ !! l = Some a ->
  (0 <= i < d /\ 2 * d + 1 <= Z.of_nat (fst (shape a))) \/
  (0 <= j < d /\ nd_rect a /\ 2 * d + 1 <= Z.of_nat (snd (shape a))) ->
  flat_neighbours a i j d = [] /\
  remove_dead l ((i, j) :: rest) "average" d σ = (Raise IndexError, σ ++ [a]).
Proof.
  intros Hl Hedge.
  assert (flat_neighbours a i j d = []) as Hflat.
  { destruct a as [a | rows]; cbn [flat_neighbours shape nd_rect fst snd] in *;
      by rewrite window_wraps_to_empty. }
  split; [exact Hflat |].
  rewrite (remove_dead_run _ _ _ _ _ _ Hl).
  unfold remove_dead_writes. cbn [String.eqb Ascii.eqb Bool.eqb].
  cbn [run_writes]. unfold average_step. cbn [fst snd]. by rewrite Hflat.
Qed.

Lemma remove_dead_average_top_left_edge_witness :
  flat_neighbours (IntArray (IArray uint8 tens)) 0 2 1 = [] /\
  remove_dead 0%nat [(0, 2)] "average" 1 [IntArray (IArray uint8 tens)]
  = (Raise IndexError,
     [IntArray (IArray uint8 tens); IntArray (IArray uint8 tens)]).
Proof.
  apply (remove_dead_average_top_left_edge [IntArray (IArray uint8 tens)]
           0%nat (IntArray (IArray uint8 tens)) 0 2 [] 1 eq_refl).
  left. cbn. lia.
Defined.

(** *** The window of the "average" mode *)

Lemma slice_map {A B} (f : A -> B) (l : list A) s e :
  slice (map f l) s e = map f (slice l s e).
Proof. unfold slice. by rewrite length_map, fmap_take, fmap_drop. Qed.

Lemma flat_neighbours_as_floats a i j d :
  flat_neighbours a i j d
  = concat (slice2d (as_floats a) (i - d) (i + d + 1) (j - d) (j + d + 1)).
Proof.
  destruct a as [a | rows]; cbn [flat_neighbours as_floats]; [| done].
  unfold slice2d, map2d. rewrite slice_map, concat_map, !map_map.
  f_equal. apply map_ext. intros row. by rewrite slice_map.
Qed.

Lemma slice_three {A} (l : list A) (k : nat) a b c :
  l !! k = Some a -> l !! S k = Some b -> l !! S (S k) = Some c ->
  slice l (Z.of_nat k) (Z.of_nat k + 3) = [a; b; c].
Proof.
  intros Ha Hb Hc. pose proof (lookup_lt_Some _ _ _ Hc) as Hlt.
  unfold slice, slice_bound.
  destruct (Z.of_nat k <? 0) eqn:E1; [apply Z.ltb_lt in E1; lia |].
  destruct (Z.of_nat k + 3 <? 0) eqn:E2; [apply Z.ltb_lt in E2; lia |].
  replace (Z.to_nat (Z.min (Z.of_nat k) (Z.of_nat (length l)))) with k by lia.
  replace (Z.to_nat (Z.min (Z.of_nat k + 3) (Z.of_nat (length l))) - k)%nat
    with 3%nat by lia.
  by rewrite (drop_S _ _ _ Ha), (drop_S _ _ _ Hb), (drop_S _ _ _ Hc).
Qed.

Lemma slice_two_at_end {A} (l : list A) (k : nat) a b :
  l !! k = Some a -> l !! S k = Some b -> l !! S (S k) = None ->
  slice l (Z.of_nat k) (Z.of_nat k + 3) = [a; b].
Proof.
  intros Ha Hb Hc. pose proof (lookup_lt_Some _ _ _ Hb) as Hlt.
  apply lookup_ge_None in Hc.
  unfold slice, slice_bound.
  destruct (Z.of_nat k <? 0) eqn:E1; [apply Z.ltb_lt in E1; lia |].
  destruct (Z.of_nat k + 3 <? 0) eqn:E2; [apply Z.ltb_lt in E2; lia |].
  replace (Z.to_nat (Z.min (Z.of_nat k) (Z.of_nat (length l)))) with k by lia.
  replace (Z.to_nat (Z.min (Z.of_nat k + 3) (Z.of_nat (length l))) - k)%nat
    with 2%nat by lia.
  rewrite (drop_S _ _ _ Ha), (drop_S _ _ _ Hb). cbn.
  by rewrite take_0.
Qed.

Lemma get2d_Some {A} (rows : list (list A)) r c x :
  get2d rows r c = Some x -> exists row, rows !! r = Some row /\ row !! c = Some x.
Proof.
  unfold get2d. destruct (rows !! r) as [row |]; cbn; [eauto | discriminate].
Qed.

Lemma get2d_None_in_row {A} (rows : list (list A)) r c c' x :
  get2d rows r c = Some x -> get2d rows r c' = None ->
  exists row, rows !! r = Some row /\ row !! c' = None.
Proof.
  unfold get2d. destruct (rows !! r) as [row |]; cbn; [eauto | discriminate].
Qed.

(** The run of one dead pixel in the "average" mode, from its
    neighbourhood after the deletion. *)
Lemma remove_dead_average_one (σ : store) l a i j d ns :
  σ !! l = Some a ->
  np_delete (flat_neighbours a i j d) 4 = Ok ns ->
  remove_dead l [(i, j)] "average" d σ
  = match v ← py_int (np_mean ns); assign a i j (PyI v) with
    | Ok out => (Ok (length σ), σ ++ [out])
    | Raise e => (Raise e, σ ++ [a])
    end.
Proof.
  intros Hl Hns. rewrite (remove_dead_run _ _ _ _ _ _ Hl).
  unfold remove_dead_writes. cbn [String.eqb Ascii.eqb Bool.eqb].
  cbn [run_writes]. unfold average_step. cbn [fst snd]. rewrite Hns.
  cbn [mbind result_bind].
  by destruct (py_int (np_mean ns) ≫= (fun v => assign a i j (PyI v))).
Qed.

Lemma window_rows {A} (rows : list (list A)) (k : nat) c0 c1 r0 r1 r2 :
  rows !! k = Some r0 -> rows !! S k = Some r1 -> rows !! S (S k) = Some r2 ->
  concat (slice2d rows (Z.of_nat (S k) - 1) (Z.of_nat (S k) + 1 + 1) c0 c1)
  = slice r0 c0 c1 ++ slice r1 c0 c1 ++ slice r2 c0 c1.
Proof.
  intros H0 H1 H2. unfold slice2d.
  replace (Z.of_nat (S k) - 1) with (Z.of_nat k) by lia.
  replace (Z.of_nat (S k) + 1 + 1) with (Z.of_nat k + 3) by lia.
  rewrite (slice_three _ _ _ _ _ H0 H1 H2). cbn. by rewrite app_nil_r.
Qed.

Lemma window_rows_at_end {A} (rows : list (list A)) (k : nat) c0 c1 r0 r1 :
  rows !! k = Some r0 -> rows !! S k = Some r1 -> rows !! S (S k) = None ->
  concat (slice2d rows (Z.of_nat (S k) - 1) (Z.of_nat (S k) + 1 + 1) c0 c1)
  = slice r0 c0 c1 ++ slice r1 c0 c1.
Proof.
  intros H0 H1 H2. unfold slice2d.
  replace (Z.of_nat (S k) - 1) with (Z.of_nat k) by lia.
  replace (Z.of_nat (S k) + 1 + 1) with (Z.of_nat k + 3) by lia.
  rewrite (slice_two_at_end _ _ _ _ H0 H1 H2). cbn. by rewrite app_nil_r.
Qed.

Ltac same_row :=
  repeat match goal with
    | H1 : ?rows !! ?r = Some ?a, H2 : ?rows !! ?r = Some ?b |- _ =>
        rewrite H1 in H2; injection H2 as <-
    end.



(** At the right edge the window has two columns, and index 4 of the
    flattened neighbourhood is the lower-left neighbour, not the dead
    pixel: the value written averages the dead pixel's own value [x11] with
    four neighbours and leaves [x20] out. *)
Theorem remove_dead_average_right_edge (σ : store) l a (k m : nat)
    x00 x01 x10 x11 x20 x21 :
  σ !! l = Some a ->
  get2d (as_floats a) k m = Some x00 ->
  get2d (as_floats a) k (S m) = Some x01 ->
  get2d (as_floats a) k (S (S m)) = None ->
  get2d (as_floats a) (S k) m = Some x10 ->
  get2d (as_floats a) (S k) (S m) = Some x11 ->
  get2d (as_floats a) (S k) (S (S m)) = None ->
  get2d (as_floats a) (S (S k)) m = Some x20 ->
  get2d (as_floats a) (S (S k)) (S m) = Some x21 ->
  get2d (as_floats a) (S (S k)) (S (S m)) = None ->
  let i := Z.of_nat (S k) in
  let j := Z.of_nat (S m) in
  flat_neighbours a i j 1 = [x00; x01; x10; x11; x20; x21] /\
  remove_dead l [(i, j)] "average" 1 σ
  = match v ← py_int (np_mean [x00; x01; x10; x11; x21]);
          assign a i j (PyI v) with
    | Ok out => (Ok (length σ), σ ++ [out])
    | Raise e => (Raise e, σ ++ [a])
    end.
Proof.
  intros Hl H00 H01 H02 H10 H11 H12 H20 H21 H22. cbv zeta.
  destruct (get2d_None_in_row _ _ _ _ _ H00 H02) as (r0'' & Hr0'' & N0).
  destruct (get2d_None_in_row _ _ _ _ _ H10 H12) as (r1'' & Hr1'' & N1).
  destruct (get2d_None_in_row _ _ _ _ _ H20 H22) as (r2'' & Hr2'' & N2).
  apply get2d_Some in H00 as (r0 & Hr0 & H00).
  apply get2d_Some in H01 as (r0' & Hr0' & H01).
  apply get2d_Some in H10 as (r1 & Hr1 & H10).
  apply get2d_Some in H11 as (r1' & Hr1' & H11).
  apply get2d_Some in H20 as (r2 & Hr2 & H20).
  apply get2d_Some in H21 as (r2' & Hr2' & H21).
  same_row.
  assert (flat_neighbours a (Z.of_nat (S k)) (Z.of_nat (S m)) 1
          = [x00; x01; x10; x11; x20; x21]) as Hflat.
  { rewrite flat_neighbours_as_floats, (window_rows _ _ _ _ _ _ _ Hr0 Hr1 Hr2).
    replace (Z.of_nat (S m) - 1) with (Z.of_nat m) by lia.
    replace (Z.of_nat (S m) + 1 + 1) with (Z.of_nat m + 3) by lia.
    by rewrite (slice_two_at_end _ _ _ _ H00 H01 N0),
      (slice_two_at_end _ _ _ _ H10 H11 N1), (slice_two_at_end _ _ _ _ H20 H21 N2). }
  split; [exact Hflat |].
  apply remove_dead_average_one; [done |]. by rewrite Hflat.
Qed.

Lemma remove_dead_average_right_edge_witness :
  flat_neighbours (IntArray (IArray uint8 [[0; 0]; [0; 200]; [100; 0]])) 1 1 1
  = map Z2F [0; 0; 0; 200; 100; 0] /\
  remove_dead 0%nat [(1, 1)] "average" 1
    [IntArray (IArray uint8 [[0; 0]; [0; 200]; [100; 0]])]
  = (Ok 1%nat,
     [IntArray (IArray uint8 [[0; 0]; [0; 200]; [100; 0]]);
      IntArray (IArray uint8 [[0; 0]; [0; 40]; [100; 0]])]).
Proof.
  exact (remove_dead_average_right_edge
           [IntArray (IArray uint8 [[0; 0]; [0; 200]; [100; 0]])] 0%nat
           (IntArray (IArray uint8 [[0; 0]; [0; 200]; [100; 0]])) 0 0
           _ _ _ _ _ _
           eq_refl eq_refl eq_refl eq_refl eq_refl eq_refl eq_refl eq_refl
           eq_refl eq_refl).
Defined.

(** At the bottom edge the window has two rows and the dead pixel is again
    at index 4: the value written is the truncated mean of the five
    neighbours.  In the bottom-right corner the window has four pixels, and
    [np.delete(neighbours, 4)] raises [IndexError]. *)
Theorem remove_dead_average_bottom_edge (σ : store) l a (k m : nat)
    x00 x01 x10 x11 :
  σ !! l = Some a ->
  get2d (as_floats a) k m = Some x00 ->
  get2d (as_floats a) k (S m) = Some x01 ->
  get2d (as_floats a) (S k) m = Some x10 ->
  get2d (as_floats a) (S k) (S m) = Some x11 ->
  as_floats a !! S (S k) = None ->
  let i := Z.of_nat (S k) in
  let j := Z.of_nat (S m) in
  (forall x02 x12,
      get2d (as_floats a) k (S (S m)) = Some x02 ->
      get2d (as_floats a) (S k) (S (S m)) = Some x12 ->
      flat_neighbours a i j 1 = [x00; x01; x02; x10; x11; x12] /\
      remove_dead l [(i, j)] "average" 1 σ
      = match v ← py_int (np_mean [x00; x01; x02; x10; x12]);
              assign a i j (PyI v) with
        | Ok out => (Ok (length σ), σ ++ [out])
        | Raise e => (Raise e, σ ++ [a])
        end) /\
  (get2d (as_floats a) k (S (S m)) = None ->
   get2d (as_floats a) (S k) (S (S m)) = None ->
   flat_neighbours a i j 1 = [x00; x01; x10; x11] /\
   remove_dead l [(i, j)] "average" 1 σ = (Raise IndexError, σ ++ [a])).
Proof.
  intros Hl H00 H01 H10 H11 Hend. cbv zeta.
  assert (forall w0 w1,
    (exists r0 r1, as_floats a !! k = Some r0 /\ as_floats a !! S k = Some r1 /\
       slice r0 (Z.of_nat m) (Z.of_nat m + 3) = w0 /\
       slice r1 (Z.of_nat m) (Z.of_nat m + 3) = w1) ->
    flat_neighbours a (Z.of_nat (S k)) (Z.of_nat (S m)) 1 = w0 ++ w1) as Hwin.
  { intros w0 w1 (r0 & r1 & Hr0 & Hr1 & <- & <-).
    rewrite flat_neighbours_as_floats, (window_rows_at_end _ _ _ _ _ _ Hr0 Hr1 Hend).
    replace (Z.of_nat (S m) - 1) with (Z.of_nat m) by lia.
    by replace (Z.of_nat (S m) + 1 + 1) with (Z.of_nat m + 3) by lia. }
  split.
  - intros x02 x12 H02 H12.
    apply get2d_Some in H00 as (r0 & Hr0 & H00).
    apply get2d_Some in H01 as (r0' & Hr0' & H01).
    apply get2d_Some in H02 as (r0'' & Hr0'' & H02).
    apply get2d_Some in H10 as (r1 & Hr1 & H10).
    apply get2d_Some in H11 as (r1' & Hr1' & H11).
    apply get2d_Some in H12 as (r1'' & Hr1'' & H12).
    same_row.
    assert (flat_neighbours a (Z.of_nat (S k)) (Z.of_nat (S m)) 1
            = [x00; x01; x02; x10; x11; x12]) as Hflat.
    { apply (Hwin [x00; x01; x02] [x10; x11; x12]). exists r0, r1.
      split; [done |]. split; [done |].
      by rewrite (slice_three _ _ _ _ _ H00 H01 H02),
        (slice_three _ _ _ _ _ H10 H11 H12). }
    split; [exact Hflat |].
    apply remove_dead_average_one; [done |]. by rewrite Hflat.
  - intros H02 H12.
    destruct (get2d_None_in_row _ _ _ _ _ H00 H02) as (r0'' & Hr0'' & N0).
    destruct (get2d_None_in_row _ _ _ _ _ H10 H12) as (r1'' & Hr1'' & N1).
    apply get2d_Some in H00 as (r0 & Hr0 & H00).
    apply get2d_Some in H01 as (r0' & Hr0' & H01).
    apply get2d_Some in H10 as (r1 & Hr1 & H10).
    apply get2d_Some in H11 as (r1' & Hr1' & H11).
    same_row.
    assert (flat_neighbours a (Z.of_nat (S k)) (Z.of_nat (S m)) 1
            = [x00; x01; x10; x11]) as Hflat.
    { apply (Hwin [x00; x01] [x10; x11]). exists r0, r1.
      split; [done |]. split; [done |].
      by rewrite (slice_two_at_end _ _ _ _ H00 H01 N0),
        (slice_two_at_end _ _ _ _ H10 H11 N1). }
    split; [exact Hflat |].
    rewrite (remove_dead_run _ _ _ _ _ _ Hl).
    unfold remove_dead_writes. cbn [String.eqb Ascii.eqb Bool.eqb].
    cbn [run_writes]. unfold average_step. cbn [fst snd]. by rewrite Hflat.
Qed.

Lemma remove_dead_average_bottom_edge_witness :
  remove_dead 0%nat [(1, 1)] "average" 1
    [IntArray (IArray uint8 [[10; 20; 30]; [40; 250; 50]])]
  = (Ok 1%nat,
     [IntArray (IArray uint8 [[10; 20; 30]; [40; 250; 50]]);
      IntArray (IArray uint8 [[10; 20; 30]; [40; 30; 50]])]).
Proof.
  exact (proj2 (proj1 (remove_dead_average_bottom_edge
           [IntArray (IArray uint8 [[10; 20; 30]; [40; 250; 50]])] 0%nat
           (IntArray (IArray uint8 [[10; 20; 30]; [40; 250; 50]])) 0 0
           _ _ _ _ eq_refl eq_refl eq_refl eq_refl eq_refl eq_refl)
           _ _ eq_refl eq_refl)).
Defined.

(** *** Windows wider than 3x3 *)





Section WideWindow.

Context {A : Type}.
Variable rows : list (list A).
Variables i j d : nat.
Hypothesis Hrect : rect rows.
Hypothesis Hi : (d <= i)%nat.
Hypothesis Hi' : (i + d < nrows rows)%nat.
Hypothesis Hj : (d <= j)%nat.
Hypothesis Hj' : (j + d < ncols rows)%nat.





End WideWindow.




(** On that pattern the dead pixel 241 is averaged in: the mean of the 24
    values left is 11, and 11 is written where the 24 neighbours hold 1 or
    9. *)
Lemma remove_dead_average_d2_example :
  remove_dead 0%nat [(2, 2)] "average" 2
    [IntArray (IArray uint8
       [[1; 1; 1; 1; 9]; [1; 1; 1; 1; 1]; [1; 1; 241; 1; 1];
        [1; 1; 1; 1; 1]; [1; 1; 1; 1; 1]])]
  = (Ok 1%nat,
     [IntArray (IArray uint8
        [[1; 1; 1; 1; 9]; [1; 1; 1; 1; 1]; [1; 1; 241; 1; 1];
         [1; 1; 1; 1; 1]; [1; 1; 1; 1; 1]]);
      IntArray (IArray uint8
        [[1; 1; 1; 1; 9]; [1; 1; 1; 1; 1]; [1; 1; 11; 1; 1];
         [1; 1; 1; 1; 1]; [1; 1; 1; 1; 1]])]).
Proof. vm_compute. reflexivity. Qed.

(** ** Wrap-around in [rescale_pattern_intensity] and [correct_background] *)

Lemma wrap_exact_iff t z : wrap t z = z <-> in_range t z = true.
Proof.
  split; [| apply wrap_in_range]. intros H. rewrite <- H. apply wrap_range.
Qed.

Lemma wrap_sub_wrap t p q : wrap t (wrap t p - wrap t q) = wrap t (p - q).
Proof. dtype_cases t; Z.div_mod_to_equations; lia. Qed.

(** An unsigned array keeps its dtype next to a Python int that its dtype
    holds. *)
Lemma result_type_fits_unsigned w v :
  in_range (IDtype false w) v = true ->
  result_type (IDtype false w) v = Some (Some (IDtype false w)).
Proof.
  intros Hv. apply in_range_bounds in Hv.
  unfold result_type, scalar_type, min_width. cbn [signed andb].
  unfold iinfo_min in Hv. cbn [signed] in Hv.
  destruct (v <? 0) eqn:E; [apply Z.ltb_lt in E; lia |].
  repeat case_match; simplify_eq; cbn;
    repeat match goal with
      | H : in_range _ _ = true |- _ => apply in_range_bounds in H
      | H : in_range _ _ = false |- _ =>
          apply not_true_iff_false in H; rewrite in_range_bounds in H
      end;
    destruct w; cbv [iinfo_min iinfo_max signed iwidth bits] in *;
    try reflexivity; exfalso; lia.
Qed.

(** In the explicit mode on an unsigned pattern, with an [imin] that the
    pattern's dtype holds, the subtraction stays in that dtype: a pixel
    below [imin] is not clipped to zero, it wraps around to
    [p - imin + 2 ^ bits] before it is scaled. *)
Theorem rescale_explicit_wraps_below_imin cu pattern imin scale t_out :
  signed (idt pattern) = false -> signed t_out = false ->
  in_range (idt pattern) imin = true ->
  rescale_pattern_intensity cu pattern (Some imin) (Some scale) (DInt t_out)
  = Ok (IArray t_out
          (map2d (fun p =>
                    float_to_int cu t_out
                      (fmul (Z2F ((p - imin) mod 2 ^ bits (iwidth (idt pattern))))
                         scale))
             (irows pattern))).
Proof.
  intros Hu Ho Hi. unfold rescale_pattern_intensity. rewrite Ho.
  cbn [option_map mbind result_bind]. unfold np_subtract_scalar.
  destruct (idt pattern) as [s w] eqn:Et. cbn in Hu. subst s.
  rewrite (result_type_fits_unsigned _ _ Hi).
  cbn [mbind result_bind np_multiply_float irows]. by rewrite !map2d_map2d.
Qed.

Lemma rescale_explicit_wraps_below_imin_witness :
  rescale_pattern_intensity cast_saturating (IArray uint8 [[5; 10; 200]])
    (Some 10) (Some (Z2F 1)) (DInt uint8)
  = Ok (IArray uint8 [[251; 0; 190]]).
Proof.
  rewrite (rescale_explicit_wraps_below_imin cast_saturating
             (IArray uint8 [[5; 10; 200]]) 10 (Z2F 1) uint8
             eq_refl eq_refl eq_refl).
  vm_compute. reflexivity.
Defined.

(** Cast to a dtype and subtracted there, two integer arrays of one shape
    give each difference [p - q] reduced into the range of the dtype; the
    difference is exact exactly where [p - q] lies in that range.  For the
    [int8] of the static path that is [-128 .. 127]. *)
Theorem subtract_as_modular t pattern bg :
  rect (irows pattern) -> rect (irows bg) ->
  nrows (irows pattern) = nrows (irows bg) ->
  ncols (irows pattern) = ncols (irows bg) ->
  subtract_as t pattern bg
  = Ok (IArray t (zip2d (fun p q => wrap t (p - q)) (irows pattern) (irows bg)))
  /\ (forall p q, wrap t (p - q) = p - q <-> in_range t (p - q) = true).
Proof.
  intros Hrp Hrb Hnr Hnc. split; [| intros p q; apply wrap_exact_iff].
  unfold subtract_as, astype. cbn [irows].
  rewrite np_subtract_same_shape;
    [| by apply map2d_rect | by apply map2d_rect
     | by rewrite !map2d_nrows | by rewrite !map2d_ncols].
  cbn [mbind result_bind]. f_equal. f_equal. rewrite zip2d_map2d.
  apply (zip2d_ext_Forall _ _ (fun _ => True) (fun _ => True)).
  - intros p q _ _. apply wrap_sub_wrap.
  - apply Forall_forall. intros r _. by apply Forall_forall.
  - apply Forall_forall. intros r _. by apply Forall_forall.
Qed.

Lemma subtract_as_modular_witness :
  subtract_as int8 (IArray uint8 [[200; 100]; [0; 50]])
    (IArray uint8 [[0; 3]; [255; 50]])
  = Ok (IArray int8 (zip2d (fun p q => wrap int8 (p - q))
                       [[200; 100]; [0; 50]] [[0; 3]; [255; 50]]))
  /\ (forall p q, wrap int8 (p - q) = p - q <-> in_range int8 (p - q) = true).
Proof.
  apply (subtract_as_modular int8 (IArray uint8 [[200; 100]; [0; 50]])
           (IArray uint8 [[0; 3]; [255; 50]]));
    try reflexivity; repeat constructor.
Defined.

(** ** [correct_background]: errors and composition *)



(** With both flags set, the static correction runs first, rescale
    included, and the dynamic correction runs on its result: the call is
    the static-only call followed by the dynamic-only call, and an error of
    the first ends it. *)
Theorem correct_background_both_flags cu blur pattern bg sigma imin scale :
  correct_background cu blur pattern true true bg sigma imin scale
  = corrected ← correct_background cu blur pattern true false bg sigma imin scale;
    correct_background cu blur corrected false true bg sigma imin scale.
Proof.
  unfold correct_background.
  destruct (subtract_as int8 pattern bg) as [diff | e]; [| reflexivity].
  cbn [mbind result_bind].
  destruct (rescale_pattern_intensity cu diff imin scale (DInt uint8));
    reflexivity.
Qed.
